(** * Tic-Tac-Toe by exhaustive minimax search

    A shallow embedding of [0 Search/minimax.py] (class [TicTacToe]) and the
    properties of its board model and of its minimax search.

    - Cells are Python values [None], ["X"], ["O"]: [cell := option symbol],
      with Rocq's [None] standing for Python's [None] ([self.EMPTY]).
    - A board is a list of rows, a row a list of cells, exactly as the Python
      list of lists; the 3x3 shape built by [__init__] is the predicate
      [wf_board].  Indexing a board that is not 3x3 raises [IndexError] in
      Python; that error is outside this model, and every theorem below is
      stated for well-formed boards.
    - An action is a pair of Python integers, hence [Z * Z].
    - [actions] returns a Python [set].  The set is represented by the
      sequence of its [add] calls (no cell is added twice), and the order in
      which a [for] loop enumerates it is a parameter [set_iter] of the
      search: Python leaves that order to the hash table.
    - [raise Exception("Invalid action")] is the [Raise] outcome; recursion
      is bounded by fuel and [Timeout] is the outcome of exhausted fuel. *)

From Stdlib Require Import Ascii.
From stdpp Require Import base numbers option list gmap strings pretty.

Local Open Scope Z_scope.

(** ** Data model *)

Inductive symbol := X | O.

#[global] Instance symbol_eq_dec : EqDecision symbol.
Proof. solve_decision. Defined.

Abbreviation cell := (option symbol).
Abbreviation row := (list cell).
Abbreviation board := (list row).
Abbreviation action := (Z * Z)%type.

(** [[[None for _ in range(3)] for _ in range(3)]] *)
Definition empty_board : board := replicate 3 (replicate 3 None).

Definition wf_board (b : board) : Prop :=
  length b = 3%nat ∧ Forall (λ r : row, length r = 3%nat) b.

(** [board[i][j]] when both indices are in range. *)
Definition cell_at (b : board) (i j : nat) : option cell :=
  b !! i ≫= (.!! j).

(** [row[k]] and [board[i][j]] as read by [winner]. *)
Definition row_get (r : row) (k : nat) : cell := default None (r !! k).
Definition board_get (b : board) (i j : nat) : cell :=
  default None (cell_at b i j).

(** ** Outcomes: a returned value, a raised exception, or exhausted fuel *)

Inductive outcome (A : Type) : Type :=
  | Ret (a : A)
  | Raise (msg : string)
  | Timeout.
Arguments Ret {A} a.
Arguments Raise {A} msg.
Arguments Timeout {A}.

#[global] Instance outcome_ret : MRet outcome := λ A, Ret.
#[global] Instance outcome_bind : MBind outcome := λ A B f m,
  match m with
  | Ret a => f a
  | Raise msg => Raise msg
  | Timeout => Timeout
  end.

(** [for x in xs: s = body(s, x)], stopping at the first exception. *)
Fixpoint for_each {A S : Type} (xs : list A) (s : S)
    (body : S → A → outcome S) : outcome S :=
  match xs with
  | [] => Ret s
  | x :: xs' => s' ← body s x; for_each xs' s' body
  end.

(** ** Board model *)

(** [actions]: the cells [(i, j)] with [board[i][j] is None], in the order
    in which the nested loops add them to the set. *)
Definition actions (b : board) : list action :=
  i ← seq 0 3; j ← seq 0 3;
  if bool_decide (cell_at b i j = Some None)
  then [(Z.of_nat i, Z.of_nat j)] else [].

(** [sum(row.count(s) for row in board)] *)
Definition count_symbol (s : symbol) (b : board) : nat :=
  sum_list ((λ r : row, length (filter (λ c, c = Some s) r)) <$> b).

Definition player (b : board) : symbol :=
  let x_count := count_symbol X b in
  let o_count := count_symbol O b in
  if bool_decide (x_count ≤ o_count)%nat then X else O.

(** The exceptions of the program. *)
Definition invalid_action : string := "Invalid action".

(** [new_board[i][j] = c] *)
Definition set_cell (b : board) (i j : nat) (c : cell) : board :=
  alter (λ r : row, <[j := c]> r) i b.

(** [result]: membership test, [copy.deepcopy], then
    [new_board[action[0]][action[1]] = self.player(board)].  Boards are
    values here; the object-level view, with the copy made explicit, is
    [Heap.result] below. *)
Definition result (b : board) (a : action) : outcome board :=
  if bool_decide (a ∉ actions b) then Raise invalid_action
  else
    let new_board := b in
    Ret (set_cell new_board (Z.to_nat a.1) (Z.to_nat a.2) (Some (player b))).

(** [a == b == c and a is not None] *)
Definition three (a b c : cell) : bool :=
  bool_decide (a = b) && bool_decide (b = c) && bool_decide (a ≠ None).

Definition winner (b : board) : cell :=
  match find (λ r : row, three (row_get r 0) (row_get r 1) (row_get r 2)) b with
  | Some r => row_get r 0
  | None =>
    match find (λ j, three (board_get b 0 j) (board_get b 1 j) (board_get b 2 j))
               (seq 0 3) with
    | Some j => board_get b 0 j
    | None =>
      if three (board_get b 0 0) (board_get b 1 1) (board_get b 2 2)
      then board_get b 0 0
      else if three (board_get b 0 2) (board_get b 1 1) (board_get b 2 0)
      then board_get b 0 2
      else None
    end
  end.

Definition terminal (b : board) : bool :=
  bool_decide (winner b ≠ None) || bool_decide (length (actions b) = 0%nat).

Definition utility (b : board) : Z :=
  let w := winner b in
  if bool_decide (w = Some X) then 1
  else if bool_decide (w = Some O) then -1
  else 0.

(** ** Minimax search *)

(** The running best value [v]: an integer utility, or [-math.inf] /
    [math.inf] before the first comparison. *)
Inductive value := NegInf | Fin (z : Z) | PosInf.

#[global] Instance value_eq_dec : EqDecision value.
Proof. solve_decision. Defined.

(** [v1 < v2] *)
Definition value_ltb (v1 v2 : value) : bool :=
  match v1, v2 with
  | NegInf, NegInf => false
  | NegInf, _ => true
  | Fin z1, Fin z2 => z1 <? z2
  | Fin _, PosInf => true
  | _, _ => false
  end.

Section Search.

(** The order in which iterating over a set yields its elements, as a
    function of the sequence of insertions that built the set. *)
Variable set_iter : list action → list action.

Fixpoint max_value_fuel (n : nat) (b : board) {struct n}
    : outcome (value * option action) :=
  match n with
  | 0%nat => Timeout
  | S n' =>
    if terminal b then Ret (Fin (utility b), None)
    else
      for_each (set_iter (actions b)) (NegInf, None)
        (λ '(v, best_action) a,
           b' ← result b a;
           '(min_val, _) ← min_value_fuel n' b';
           if value_ltb v min_val then Ret (min_val, Some a)
           else Ret (v, best_action))
  end
with min_value_fuel (n : nat) (b : board) {struct n}
    : outcome (value * option action) :=
  match n with
  | 0%nat => Timeout
  | S n' =>
    if terminal b then Ret (Fin (utility b), None)
    else
      for_each (set_iter (actions b)) (PosInf, None)
        (λ '(v, best_action) a,
           b' ← result b a;
           '(max_val, _) ← max_value_fuel n' b';
           if value_ltb max_val v then Ret (max_val, Some a)
           else Ret (v, best_action))
  end.

(** A 3x3 board has at most nine empty cells, and every recursive call
    fills one: depth ten is never exceeded. *)
Definition depth : nat := 10.

Definition max_value (b : board) : outcome (value * option action) :=
  max_value_fuel depth b.
Definition min_value (b : board) : outcome (value * option action) :=
  min_value_fuel depth b.

Definition minimax (b : board) : outcome (option action) :=
  if terminal b then Ret None
  else
    let current_player := player b in
    if bool_decide (current_player = X)
    then '(_, a) ← max_value b; Ret a
    else '(_, a) ← min_value b; Ret a.

(** The computer plays both sides:
    [while not terminal(board): board = result(board, minimax(board))].
    ([None not in actions] holds, so [result(board, None)] raises.) *)
Fixpoint self_play (n : nat) (b : board) {struct n} : outcome board :=
  match n with
  | 0%nat => Timeout
  | S n' =>
    if terminal b then Ret b
    else
      a ← minimax b;
      b' ← match a with
           | Some a => result b a
           | None => Raise invalid_action
           end;
      self_play n' b'
  end.

End Search.

Arguments max_value_fuel : simpl never.
Arguments min_value_fuel : simpl never.
Arguments max_value : simpl never.
Arguments min_value : simpl never.
Arguments self_play : simpl never.

(** The integer value carried by a search result. *)
Definition value_of (r : outcome (value * option action)) : option Z :=
  match r with
  | Ret (Fin z, _) => Some z
  | _ => None
  end.

(** The value [next(result(board, action))[0]] that the loop of
    [max_value] (with [next := min_value]) or of [min_value] (with
    [next := max_value]) computes for one action. *)
Definition value_after (next : board → outcome (value * option action))
    (b : board) (a : action) : option Z :=
  value_of (b' ← result b a; next b').

(** ** The two loops, seen as one

    [max_value] and [min_value] differ in the initial value and in the
    direction of the strict comparison only. *)

Inductive direction := Max | Min.

Definition initial (d : direction) : value :=
  match d with Max => NegInf | Min => PosInf end.

(** [better d w v]: the candidate [w] replaces the running best [v]. *)
Definition better (d : direction) (w v : value) : bool :=
  match d with Max => value_ltb v w | Min => value_ltb w v end.

(** On integers: [x] is strictly worse than [y], [x] is not better than [y]. *)
Definition worse (d : direction) (x y : Z) : Prop :=
  match d with Max => x < y | Min => y < x end.
Definition no_better (d : direction) (x y : Z) : Prop :=
  match d with Max => x ≤ y | Min => y ≤ x end.

Definition loop_body (d : direction)
    (next : board → outcome (value * option action)) (b : board)
    : value * option action → action → outcome (value * option action) :=
  λ '(v, best_action) a,
    b' ← result b a;
    '(w, _) ← next b';
    if better d w v then Ret (w, Some a) else Ret (v, best_action).

(** [max_value] and [min_value] under one name, by direction. *)
Definition opponent (d : direction) : direction :=
  match d with Max => Min | Min => Max end.

Definition search_fuel (set_iter : list action → list action)
    (d : direction) (n : nat) (b : board) : outcome (value * option action) :=
  match d with
  | Max => max_value_fuel set_iter n b
  | Min => min_value_fuel set_iter n b
  end.

Definition search (set_iter : list action → list action)
    (d : direction) (b : board) : outcome (value * option action) :=
  match d with
  | Max => max_value set_iter b
  | Min => min_value set_iter b
  end.

(** The loop over child values that are already known. *)
Fixpoint pick (d : direction) (f : action → Z) (l : list action)
    (v : value) (best_action : option action) : value * option action :=
  match l with
  | [] => (v, best_action)
  | a :: l' =>
    if better d (Fin (f a)) v then pick d f l' (Fin (f a)) (Some a)
    else pick d f l' v best_action
  end.

(** ** Concrete boards and enumeration orders *)

(** X at (0,0) and (0,1), O at (1,0): O is to move. *)
Definition block_board : board :=
  [[Some X; Some X; None]; [Some O; None; None]; [None; None; None]].

(** The five cells the opening move is expected in. *)
Definition corners_and_center : list action :=
  [(0, 0); (0, 2); (2, 0); (2, 2); (1, 1)].

(** An enumeration by position in a hash table instead of by insertion: the
    nine cells in the sequence in which CPython 3.11 iterates over the set
    [{(i, j) for i in range(3) for j in range(3)}], and any set in the
    relative order of that sequence. *)
Definition table_order : list action :=
  [(0, 1); (1, 2); (2, 1); (0, 0); (1, 1); (2, 0); (0, 2); (2, 2); (1, 0)].

Definition hash_order (l : list action) : list action :=
  filter (λ a, a ∈ l) table_order ++ filter (λ a, a ∉ table_order) l.

(** ** Boards as objects

    The object-level view of [result]: a board is a reference to a list
    object whose elements are references to the row objects; [result] works
    on a [copy.deepcopy] of its argument.  Cells ([None] and strings) are
    immutable and are stored in the rows by value. *)

Module Heap.

Abbreviation loc := nat.

Inductive object :=
  | Row (cells : row)
  | Grid (rows : list loc).

Abbreviation heap := (gmap loc object).

(** A reference that is dangling or of the wrong type (Python raises
    [TypeError] or [IndexError]). *)
Definition bad_reference : string := "bad reference".

Definition lift {A : Type} (o : option A) : outcome A :=
  match o with
  | Some x => Ret x
  | None => Raise bad_reference
  end.

Definition read_row (h : heap) (r : loc) : option row :=
  match h !! r with
  | Some (Row cs) => Some cs
  | _ => None
  end.

Definition read_rows (h : heap) (l : loc) : option (list loc) :=
  match h !! l with
  | Some (Grid rs) => Some rs
  | _ => None
  end.

(** The board value that the list of lists at [l] holds. *)
Definition read_board (h : heap) (l : loc) : option board :=
  rs ← read_rows h l; mapM (read_row h) rs.

(** [copy.deepcopy(r, memo)] for a row: an object copied before is taken
    from [memo]; otherwise a new list with the same cells is allocated. *)
Definition deepcopy_row (h : heap) (memo : gmap loc loc) (r : loc)
    : option (heap * gmap loc loc * loc) :=
  match memo !! r with
  | Some r' => Some (h, memo, r')
  | None =>
    cs ← read_row h r;
    let r' := fresh (dom h) in
    Some (<[r' := Row cs]> h, <[r := r']> memo, r')
  end.

(** [for a in x: y.append(deepcopy(a, memo))] *)
Fixpoint deepcopy_rows (h : heap) (memo : gmap loc loc) (rs : list loc)
    : option (heap * gmap loc loc * list loc) :=
  match rs with
  | [] => Some (h, memo, [])
  | r :: rs' =>
    '(h1, memo1, r') ← deepcopy_row h memo r;
    '(h2, memo2, rs'') ← deepcopy_rows h1 memo1 rs';
    Some (h2, memo2, r' :: rs'')
  end.

(** [copy.deepcopy(board)]: [y = []; memo[id(x)] = y], then the rows. *)
Definition deepcopy (h : heap) (l : loc) : option (heap * loc) :=
  rs ← read_rows h l;
  let y := fresh (dom h) in
  '(h1, _, rs') ← deepcopy_rows (<[y := Grid []]> h) {[l := y]} rs;
  Some (<[y := Grid rs']> h1, y).

Definition result (h : heap) (board_ref : loc) (a : action)
    : outcome (heap * loc) :=
  b ← lift (read_board h board_ref);
  if bool_decide (a ∉ actions b) then Raise invalid_action
  else
    '(h1, new_board) ← lift (deepcopy h board_ref);
    rs ← lift (read_rows h1 new_board);
    r ← lift (rs !! Z.to_nat a.1);
    cs ← lift (read_row h1 r);
    Ret (<[r := Row (<[Z.to_nat a.2 := Some (player b)]> cs)]> h1, new_board).

(** [l] refers to a board of value [b] whose rows are distinct objects, as
    [__init__] builds it. *)
Definition board_at (h : heap) (l : loc) (b : board) : Prop :=
  ∃ rs, h !! l = Some (Grid rs) ∧ NoDup rs ∧
        Forall2 (λ r cs, h !! r = Some (Row cs)) rs b.

(** The game board of [__init__] at reference 0, after the three moves
    that lead to [block_board]. *)
Definition block_heap : heap :=
  {[ 0%nat := Grid [1; 2; 3]%nat;
     1%nat := Row [Some X; Some X; None];
     2%nat := Row [Some O; None; None];
     3%nat := Row [None; None; None] ]}.

End Heap.

(** ** Vocabulary of the statements *)

(** Per-cell counts: a cell is empty, or holds the symbol [s]. *)
Definition empty_count (c : cell) : nat := if decide (c = None) then 1 else 0.
Definition symbol_count (s : symbol) (c : cell) : nat :=
  if decide (c = Some s) then 1 else 0.

(** Coordinates in [0,2], and a target cell that holds a symbol. *)
Definition in_range (a : action) : Prop := 0 ≤ a.1 ≤ 2 ∧ 0 ≤ a.2 ≤ 2.
Definition occupied (b : board) (a : action) : Prop :=
  ∃ s, cell_at b (Z.to_nat a.1) (Z.to_nat a.2) = Some (Some s).

(** [max_value] returns the maximum of the values of [min_value] on the
    successor boards (no action has a greater value), with the first action
    of that value in the order of enumeration: the actions enumerated
    before it are strictly smaller.  [first_minimum] is the mirror image. *)
Definition first_maximum (set_iter : list action → list action)
    (b : board) : Prop :=
  ∃ v a pre post,
    max_value set_iter b = Ret (Fin v, Some a) ∧
    set_iter (actions b) = pre ++ a :: post ∧
    value_after (min_value set_iter) b a = Some v ∧
    (∀ x, x ∈ actions b →
       ∃ z, value_after (min_value set_iter) b x = Some z ∧ z ≤ v) ∧
    (∀ x, x ∈ pre →
       ∃ z, value_after (min_value set_iter) b x = Some z ∧ z < v) ∧
    (∀ x, x ∈ post →
       ∃ z, value_after (min_value set_iter) b x = Some z ∧ z ≤ v).

Definition first_minimum (set_iter : list action → list action)
    (b : board) : Prop :=
  ∃ v a pre post,
    min_value set_iter b = Ret (Fin v, Some a) ∧
    set_iter (actions b) = pre ++ a :: post ∧
    value_after (max_value set_iter) b a = Some v ∧
    (∀ x, x ∈ actions b →
       ∃ z, value_after (max_value set_iter) b x = Some z ∧ v ≤ z) ∧
    (∀ x, x ∈ pre →
       ∃ z, value_after (max_value set_iter) b x = Some z ∧ v < z) ∧
    (∀ x, x ∈ post →
       ∃ z, value_after (max_value set_iter) b x = Some z ∧ v ≤ z).

(** Whose turn it is in alternating play that X opened: [Max] when the
    two counts are equal (X moves), [Min] when X is one ahead (O moves). *)
Definition to_move (d : direction) (b : board) : Prop :=
  match d with
  | Max => count_symbol X b = count_symbol O b
  | Min => count_symbol X b = S (count_symbol O b)
  end.

(** What [result] does for a legal action on the board [b] held at [l]: it
    returns a reference [l'] to a new board object, equal to [b] except
    that the target cell holds [player b]; no object of the heap [h] is
    changed, so [l] still holds [b]. *)
Definition fresh_result (h : Heap.heap) (l : Heap.loc) (b : board)
    (a : action) : Prop :=
  ∃ h' l' b',
    Heap.result h l a = Ret (h', l') ∧
    result b a = Ret b' ∧
    Heap.board_at h' l' b' ∧
    cell_at b' (Z.to_nat a.1) (Z.to_nat a.2) = Some (Some (player b)) ∧
    (∀ i j, (i, j) ≠ (Z.to_nat a.1, Z.to_nat a.2) →
            cell_at b' i j = cell_at b i j) ∧
    (l' ∉ dom h) ∧
    (∀ k, k ∈ dom h → h' !! k = h !! k) ∧
    Heap.board_at h' l b.

(** The search returns: no exception, no exhausted fuel. *)
Definition returns {A : Type} (r : outcome A) : Prop := ∃ x, r = Ret x.

(** ** The game object: [make_move], [print_board], [play_game]

    Built-in exceptions are named by their type; [Exception("Invalid
    action")] keeps its message, as above. *)

Definition index_error : string := "IndexError".
Definition eof_error : string := "EOFError".

(** Python list indexing: [l[i]] for [-len(l) <= i < len(l)], counting from
    the end when [i] is negative. *)
Definition py_index {A : Type} (l : list A) (i : Z) : option nat :=
  let n := Z.of_nat (length l) in
  if bool_decide (0 ≤ i < n) then Some (Z.to_nat i)
  else if bool_decide (- n ≤ i < 0) then Some (Z.to_nat (n + i))
  else None.

Definition getitem {A : Type} (l : list A) (i : Z) : outcome A :=
  match py_index l i ≫= (l !!.) with
  | Some x => Ret x
  | None => Raise index_error
  end.

(** [make_move] on [self.board]: the returned board is the state of
    [self.board] after the call. *)
Definition make_move (b : board) (row col : Z) : outcome (bool * board) :=
  r ← getitem b row;
  c ← getitem r col;
  if bool_decide (c ≠ None) then Ret (false, b)
  else
    let current_player := player b in
    match py_index b row, py_index r col with
    | Some i, Some j => Ret (true, set_cell b i j (Some current_player))
    | _, _ => Raise index_error
    end.

Definition nl : string := String "010"%char EmptyString.

(** [print(board[i][j], end="")], or a blank for [None]. *)
Definition show_cell (c : cell) : string :=
  match c with
  | None => " "
  | Some X => "X"
  | Some O => "O"
  end.

(** The text that [print_board] writes for the board [b]. *)
Definition print_board (b : board) : string :=
  nl +:+ "   0   1   2" +:+ nl +:+
  foldr (λ i rest,
           pretty i +:+ "  " +:+
           foldr (λ j rest,
                    show_cell (board_get b i j) +:+
                    (if bool_decide (j < 2)%nat then " | " else "") +:+ rest)
                 "" (seq 0 3) +:+
           nl +:+
           (if bool_decide (i < 2)%nat then "  -----------" +:+ nl else "") +:+
           rest)
        "" (seq 0 3) +:+
  nl.

(** The texts of [play_game]. *)
Definition msg_welcome : list string :=
  ["Welcome to Tic Tac Toe!" +:+ nl;
   "You are X, Computer is O" +:+ nl;
   "Enter moves as 'row col' (0-2 for both)" +:+ nl].
Definition prompt : string := "Your move (row col): ".
Definition msg_count : string :=
  "Please enter row and column separated by space" +:+ nl.
Definition msg_range : string :=
  "Row and column must be between 0 and 2" +:+ nl.
Definition msg_taken : string := "That position is already taken!" +:+ nl.
Definition msg_numbers : string :=
  "Please enter valid numbers for row and column" +:+ nl.
Definition msg_thinking : string := "Computer is thinking..." +:+ nl.
Definition msg_chose (a : action) : string :=
  "Computer chose position (" +:+ pretty a.1 +:+ ", " +:+ pretty a.2 +:+ ")"
  +:+ nl.
Definition msg_won : string := "Congratulations! You won!" +:+ nl.
Definition msg_lost : string := "Computer wins! Better luck next time." +:+ nl.
Definition msg_tie : string := "It's a tie!" +:+ nl.

Section Console.

Variable set_iter : list action → list action.

(** The built-ins applied to a line of input: [line.strip().split()], and
    [int(token)] with [None] for [ValueError]. *)
Variable split_words : string → list string.
Variable int_of_string : string → option Z.

(** The body of the [try] after [input] has returned [line]: the board
    after it and what it printed.  [ValueError] and [IndexError] are
    caught. *)
Definition human_turn (b : board) (line : string)
    : outcome (board * list string) :=
  let move_input := split_words line in
  if bool_decide (length move_input ≠ 2%nat) then Ret (b, [msg_count])
  else
    match move_input !! 0%nat ≫= int_of_string,
          move_input !! 1%nat ≫= int_of_string with
    | Some row, Some col =>
      if bool_decide (row < 0 ∨ row > 2 ∨ col < 0 ∨ col > 2)
      then Ret (b, [msg_range])
      else
        match make_move b row col with
        | Ret (true, b') => Ret (b', [])
        | Ret (false, b') => Ret (b', [msg_taken])
        | Raise msg =>
          if bool_decide (msg = index_error) then Ret (b, [msg_numbers])
          else Raise msg
        | Timeout => Timeout
        end
    | _, _ => Ret (b, [msg_numbers])
    end.

(** [while not self.terminal(self.board): ...], on the lines still to be
    read and the texts written so far.  [input] raises [EOFError] at the
    end of the input. *)
Fixpoint play_loop (n : nat) (b : board) (input : list string)
    (out : list string) {struct n} : outcome (board * list string) :=
  match n with
  | 0%nat => Timeout
  | S n' =>
    if terminal b then Ret (b, out)
    else
      let out := out ++ [print_board b] in
      let current_player := player b in
      if bool_decide (current_player = X) then
        let out := out ++ [prompt] in
        match input with
        | [] => Raise eof_error
        | line :: input' =>
          '(b', printed) ← human_turn b line;
          play_loop n' b' input' (out ++ printed)
        end
      else
        let out := out ++ [msg_thinking] in
        action ← minimax set_iter b;
        match action with
        | Some a =>
          '(_, b') ← make_move b a.1 a.2;
          play_loop n' b' input (out ++ [msg_chose a])
        | None => play_loop n' b input out
        end
  end.

(** [play_game] on a game whose board is [b]: the final board and all that
    was written. *)
Definition play_game (n : nat) (b : board) (input : list string)
    : outcome (board * list string) :=
  '(b', out) ← play_loop n b input msg_welcome;
  let out := out ++ [print_board b'] in
  let winner := winner b' in
  if bool_decide (winner = Some X) then Ret (b', out ++ [msg_won])
  else if bool_decide (winner = Some O) then Ret (b', out ++ [msg_lost])
  else Ret (b', out ++ [msg_tie]).

(** [main]: a new game, whose board [__init__] makes empty. *)
Definition main (n : nat) (input : list string)
    : outcome (board * list string) :=
  play_game n empty_board input.

End Console.

Arguments play_loop : simpl never.

(** Stand-ins for the built-ins on the inputs used below: words are
    separated by one space, and a token is a single digit. *)
Fixpoint split_space (acc : string) (s : string) : list string :=
  match s with
  | EmptyString => if bool_decide (acc = "") then [] else [acc]
  | String c s' =>
    if bool_decide (c = " "%char)
    then (if bool_decide (acc = "") then [] else [acc]) ++ split_space "" s'
    else split_space (acc +:+ String c "") s'
  end.

Definition digit_of_string (s : string) : option Z :=
  match s with
  | String c EmptyString =>
    let n := Z.of_nat (nat_of_ascii c) - 48 in
    if bool_decide (0 ≤ n ≤ 9) then Some n else None
  | _ => None
  end.

(** ** The eight lines of the board *)

Definition lines : list (list (nat * nat)) :=
  [[(0, 0); (0, 1); (0, 2)]; [(1, 0); (1, 1); (1, 2)]; [(2, 0); (2, 1); (2, 2)];
   [(0, 0); (1, 0); (2, 0)]; [(0, 1); (1, 1); (2, 1)]; [(0, 2); (1, 2); (2, 2)];
   [(0, 0); (1, 1); (2, 2)]; [(0, 2); (1, 1); (2, 0)]]%nat.

(** All three cells of the line hold the symbol [s]. *)
Definition line_of (s : symbol) (b : board) (ln : list (nat * nat)) : Prop :=
  Forall (λ p, cell_at b p.1 p.2 = Some (Some s)) ln.

Definition other (s : symbol) : symbol :=
  match s with X => O | O => X end.

(** The one character that [print_board] writes for a cell. *)
Definition cell_char (c : cell) : ascii :=
  match c with
  | None => " "%char
  | Some X => "X"%char
  | Some O => "O"%char
  end.

(** Where the character of cell [(i, j)] stands in the text of
    [print_board]. *)
Definition cell_position (i j : nat) : nat := (17 + 27 * i + 4 * j)%nat.

(** The value of the board, searched for the player whose turn the counts
    say it is, is at most [k]: with [k = 0] the position is not lost for
    O, with [k = -1] it is won for O. *)
Definition value_at_most (k : Z) (set_iter : list action → list action)
    (b : board) : Prop :=
  wf_board b ∧
  ∃ d v, to_move d b ∧ value_of (search set_iter d b) = Some v ∧ v ≤ k.

(** X to move (three symbols each) against three threats of O. *)
Definition won_board : board :=
  [[Some O; None; Some O]; [Some X; Some O; Some X]; [None; Some X; None]].

(** The board that [play_game] ends on, without the text written. *)
Definition final_board (r : outcome (board * list string)) : outcome board :=
  '(b, _) ← r; Ret b.

(** The scan of [winner] over the eight lines, in its order: rows, columns,
    the two diagonals; the first line of three equal symbols decides. *)
Definition triples (b : board) : list (cell * cell * cell) :=
  (λ ln : list (nat * nat),
     match ln with
     | [p; q; r] =>
       (board_get b p.1 p.2, board_get b q.1 q.2, board_get b r.1 r.2)
     | _ => (None, None, None)
     end) <$> lines.

Fixpoint first_won (ts : list (cell * cell * cell)) : cell :=
  match ts with
  | [] => None
  | (a, b, c) :: ts' => if three a b c then a else first_won ts'
  end.

(** ** [make_move] and [__init__] on objects *)

(** [self.board[row][col] = player]: the row object is updated in place. *)
Definition heap_make_move (h : Heap.heap) (self_board : Heap.loc)
    (row col : Z) : outcome (bool * Heap.heap) :=
  b ← Heap.lift (Heap.read_board h self_board);
  rs ← Heap.lift (Heap.read_rows h self_board);
  r ← getitem rs row;
  cs ← Heap.lift (Heap.read_row h r);
  c ← getitem cs col;
  if bool_decide (c ≠ None) then Ret (false, h)
  else
    match py_index cs col with
    | Some j => Ret (true, <[r := Heap.Row (<[j := Some (player b)]> cs)]> h)
    | None => Raise index_error
    end.

(** [[[None for _ in range(3)] for _ in range(3)]]: three new rows, then
    the list that holds them. *)
Definition heap_new_rows (h : Heap.heap) (n : nat)
    : Heap.heap * list Heap.loc :=
  foldl (λ '(h, rs) _,
           let r := fresh (dom h) in
           (<[r := Heap.Row (replicate 3 None)]> h, rs ++ [r]))
        (h, []) (seq 0 n).

Definition heap_init (h : Heap.heap) : Heap.heap * Heap.loc :=
  let '(h', rs) := heap_new_rows h 3 in
  let l := fresh (dom h') in
  (<[l := Heap.Grid rs]> h', l).

(** * Properties *)

(** ** The functions on concrete boards *)

Example player_empty_board : player empty_board = X.
Proof. reflexivity. Qed.

Example player_block_board : player block_board = O.
Proof. reflexivity. Qed.

Example actions_block_board :
  actions block_board = [(0, 2); (1, 1); (1, 2); (2, 0); (2, 1); (2, 2)].
Proof. reflexivity. Qed.

Example result_block_board :
  result block_board (0, 2)
  = Ret [[Some X; Some X; Some O]; [Some O; None; None]; [None; None; None]].
Proof. reflexivity. Qed.

Example result_occupied : result block_board (0, 0) = Raise invalid_action.
Proof. reflexivity. Qed.

Example result_negative : result block_board (-1, 2) = Raise invalid_action.
Proof. reflexivity. Qed.

Example winner_row :
  winner [[Some O; Some O; Some O]; [Some X; Some X; None]; [Some X; None; None]]
  = Some O.
Proof. reflexivity. Qed.

Example winner_column :
  winner [[Some O; Some X; None]; [Some O; Some X; None]; [None; Some X; None]]
  = Some X.
Proof. reflexivity. Qed.

Example winner_diagonal :
  winner [[Some O; Some O; Some X]; [None; Some X; None]; [Some X; None; None]]
  = Some X.
Proof. reflexivity. Qed.

(** A full board without three in a row: terminal, no winner, utility 0. *)
Example full_board_draw :
  let b := [[Some X; Some O; Some X]; [Some X; Some O; Some O];
            [Some O; Some X; Some X]] in
  terminal b = true ∧ winner b = None ∧ utility b = 0 ∧ actions b = [].
Proof. by vm_compute. Qed.

Example max_value_terminal :
  max_value id [[Some X; Some X; Some X]; [Some O; Some O; None]; [None; None; None]]
  = Ret (Fin 1, None).
Proof. by vm_compute. Qed.

(** X to move completes the top row. *)
Example max_value_wins :
  max_value id [[Some X; Some X; None]; [Some O; Some O; None]; [None; None; None]]
  = Ret (Fin 1, Some (0, 2)).
Proof. by vm_compute. Qed.

(** ** The board model *)

Lemma wf_board_inv (b : board) :
  wf_board b →
  ∃ c00 c01 c02 c10 c11 c12 c20 c21 c22 : cell,
    b = [[c00; c01; c02]; [c10; c11; c12]; [c20; c21; c22]].
Proof.
  intros [Hlen Hrows].
  destruct b as [|r0 [|r1 [|r2 [|]]]]; try discriminate Hlen.
  apply Forall_cons in Hrows as [H0 Hrows].
  apply Forall_cons in Hrows as [H1 Hrows].
  apply Forall_cons in Hrows as [H2 _].
  destruct r0 as [|? [|? [|? [|]]]]; try discriminate H0.
  destruct r1 as [|? [|? [|? [|]]]]; try discriminate H1.
  destruct r2 as [|? [|? [|? [|]]]]; try discriminate H2.
  by repeat eexists.
Qed.

Lemma wf_empty_board : wf_board empty_board.
Proof. split; [done|]. by repeat constructor. Qed.

Lemma wf_cell_at (b : board) (i j : nat) :
  wf_board b → (i < 3)%nat → (j < 3)%nat → ∃ c, cell_at b i j = Some c.
Proof.
  intros (c00&c01&c02&c10&c11&c12&c20&c21&c22&->)%wf_board_inv Hi Hj.
  destruct i as [|[|[|]]]; destruct j as [|[|[|]]]; try lia; by eexists.
Qed.

Lemma cell_at_lt (b : board) (i j : nat) (c : cell) :
  wf_board b → cell_at b i j = Some c → (i < 3)%nat ∧ (j < 3)%nat.
Proof.
  intros [Hlen Hrows]. unfold cell_at. intros Hc.
  destruct (b !! i) as [r|] eqn:Hr; [|done]. simpl in Hc.
  pose proof (lookup_lt_Some _ _ _ Hr). pose proof (lookup_lt_Some _ _ _ Hc).
  rewrite Forall_lookup in Hrows. specialize (Hrows _ _ Hr). simpl in Hrows. lia.
Qed.

Lemma elem_of_actions (b : board) (a : action) :
  a ∈ actions b ↔
  ∃ i j, (i < 3)%nat ∧ (j < 3)%nat ∧ a = (Z.of_nat i, Z.of_nat j) ∧
         cell_at b i j = Some None.
Proof.
  unfold actions. rewrite list_elem_of_bind. split.
  - intros (i & (j & Ha & Hj)%list_elem_of_bind & Hi).
    apply elem_of_seq in Hi, Hj.
    case_bool_decide; [|by apply elem_of_nil in Ha].
    apply list_elem_of_singleton in Ha. exists i, j. split_and!; [lia|lia|done|done].
  - intros (i & j & Hi & Hj & -> & Hc). exists i. split; [|apply elem_of_seq; lia].
    apply list_elem_of_bind. exists j. split; [|apply elem_of_seq; lia].
    rewrite bool_decide_eq_true_2 by done. by apply list_elem_of_singleton.
Qed.

Lemma NoDup_actions (b : board) : NoDup (actions b).
Proof.
  unfold actions. apply NoDup_bind; [| |apply NoDup_seq].
  - intros i1 i2 a _ _ (j1 & H1 & _)%list_elem_of_bind (j2 & H2 & _)%list_elem_of_bind.
    repeat case_bool_decide; try by (apply elem_of_nil in H1 || apply elem_of_nil in H2).
    apply list_elem_of_singleton in H1, H2. simplify_eq. lia.
  - intros i _. apply NoDup_bind; [| |apply NoDup_seq].
    + intros j1 j2 a _ _ H1 H2.
      repeat case_bool_decide; try by (apply elem_of_nil in H1 || apply elem_of_nil in H2).
      apply list_elem_of_singleton in H1, H2. simplify_eq. lia.
    + intros j _. case_bool_decide; [apply NoDup_singleton|apply NoDup_nil_2].
Qed.

Lemma cell_at_set_cell_eq (b : board) (i j : nat) (c v : cell) :
  cell_at b i j = Some c → cell_at (set_cell b i j v) i j = Some v.
Proof.
  unfold cell_at, set_cell. rewrite list_lookup_alter, decide_True by done.
  destruct (b !! i) as [r|]; [|done]. simpl. intros Hr.
  apply list_lookup_insert_eq. by eapply lookup_lt_Some.
Qed.

Lemma cell_at_set_cell_ne (b : board) (i j i' j' : nat) (v : cell) :
  (i', j') ≠ (i, j) → cell_at (set_cell b i j v) i' j' = cell_at b i' j'.
Proof.
  intros Hne. unfold cell_at, set_cell. rewrite list_lookup_alter.
  case_decide as Hi; [|done]. subst i'.
  destruct (b !! i) as [r|]; [|done]. simpl.
  apply list_lookup_insert_ne. congruence.
Qed.

Lemma wf_set_cell (b : board) (i j : nat) (v : cell) :
  wf_board b → wf_board (set_cell b i j v).
Proof.
  intros [Hlen Hrows]. split; unfold set_cell.
  - by rewrite length_alter.
  - apply Forall_alter; [done|]. intros r _ Hr. by rewrite length_insert.
Qed.

(** [result] returns exactly when the action is one of [actions]. *)
Lemma result_Ret (b b' : board) (a : action) :
  result b a = Ret b' ↔
  a ∈ actions b ∧
  b' = set_cell b (Z.to_nat a.1) (Z.to_nat a.2) (Some (player b)).
Proof.
  unfold result. case_bool_decide as Ha.
  - split; [done|]. by intros [? _].
  - split; [intros [= <-]; done|]. by intros [_ ->].
Qed.

Lemma result_legal (b : board) (a : action) :
  a ∈ actions b →
  result b a = Ret (set_cell b (Z.to_nat a.1) (Z.to_nat a.2) (Some (player b))).
Proof. intros Ha. by apply result_Ret. Qed.

Lemma result_wf (b b' : board) (a : action) :
  wf_board b → result b a = Ret b' → wf_board b'.
Proof. intros Hwf [_ ->]%result_Ret. by apply wf_set_cell. Qed.

(** Every move fills one empty cell: the measure of the recursion. *)
Lemma result_fewer_actions (b b' : board) (a : action) :
  result b a = Ret b' → (length (actions b') < length (actions b))%nat.
Proof.
  intros [Ha ->]%result_Ret.
  pose proof Ha as (i & j & Hi & Hj & -> & Hc)%elem_of_actions.
  simpl. rewrite !Nat2Z.id.
  set (b' := set_cell b i j (Some (player b))).
  assert (Hfilled : cell_at b' i j = Some (Some (player b)))
    by (by eapply cell_at_set_cell_eq).
  cut (length ((Z.of_nat i, Z.of_nat j) :: actions b') ≤ length (actions b))%nat;
    [simpl; lia|].
  apply submseteq_length, NoDup_submseteq.
  - constructor; [|apply NoDup_actions].
    intros (i' & j' & _ & _ & Heq & Hc')%elem_of_actions.
    injection Heq as Hi' Hj'. apply Nat2Z.inj in Hi', Hj'. subst i' j'. congruence.
  - intros x [->|Hx]%elem_of_cons; [done|].
    apply elem_of_actions in Hx as (i' & j' & Hi' & Hj' & -> & Hc').
    apply elem_of_actions. exists i', j'. split_and!; [done..|].
    destruct (decide ((i', j') = (i, j))) as [[= -> ->]|Hne]; [congruence|].
    unfold b' in Hc'. by rewrite cell_at_set_cell_ne in Hc'.
Qed.

Lemma actions_le_9 (b : board) : (length (actions b) ≤ 9)%nat.
Proof.
  unfold actions. cbn -[cell_at bool_decide].
  rewrite !length_app. repeat case_bool_decide; simpl; lia.
Qed.

(** ** The loop with first-wins tie-break *)

Lemma better_trans (d : direction) (v : value) (y z : Z) :
  better d (Fin y) v = true → better d (Fin z) (Fin y) = true →
  better d (Fin z) v = true.
Proof. destruct d, v; simpl; try done; rewrite !Z.ltb_lt; lia. Qed.

Lemma better_Fin_true (d : direction) (y z : Z) :
  better d (Fin z) (Fin y) = true ↔ worse d y z.
Proof. destruct d; simpl; rewrite Z.ltb_lt; lia. Qed.

Lemma better_Fin_false (d : direction) (x y : Z) :
  better d (Fin x) (Fin y) = false ↔ no_better d x y.
Proof. destruct d; simpl; rewrite Z.ltb_ge; lia. Qed.

Lemma better_false_true (d : direction) (v : value) (y z : Z) :
  better d (Fin y) v = false → better d (Fin z) v = true → worse d y z.
Proof.
  destruct d, v; simpl; try done; rewrite Z.ltb_ge, Z.ltb_lt; lia.
Qed.

Lemma better_initial (d : direction) (z : Z) :
  better d (Fin z) (initial d) = true.
Proof. by destruct d. Qed.

Lemma worse_no_better (d : direction) (x y : Z) : worse d x y → no_better d x y.
Proof. destruct d; simpl; lia. Qed.

Lemma worse_trans (d : direction) (x y z : Z) :
  worse d x y → worse d y z → worse d x z.
Proof. destruct d; simpl; lia. Qed.

Lemma no_better_worse_trans (d : direction) (x y z : Z) :
  no_better d x y → worse d y z → no_better d x z.
Proof. destruct d; simpl; lia. Qed.

Lemma no_better_antisym (d : direction) (x y : Z) :
  no_better d x y → no_better d y x → x = y.
Proof. destruct d; simpl; lia. Qed.

Lemma worse_irrefl (d : direction) (x : Z) : ¬ worse d x x.
Proof. destruct d; simpl; lia. Qed.

(** Either no element beats the running best, or the loop ends on the
    first element of the best value. *)
Lemma pick_spec (d : direction) (f : action → Z) (l : list action)
    (v : value) (best : option action) :
  (pick d f l v best = (v, best) ∧
   ∀ x, x ∈ l → better d (Fin (f x)) v = false)
  ∨
  (∃ pre a post,
     l = pre ++ a :: post ∧
     pick d f l v best = (Fin (f a), Some a) ∧
     better d (Fin (f a)) v = true ∧
     (∀ x, x ∈ pre → worse d (f x) (f a)) ∧
     (∀ x, x ∈ post → no_better d (f x) (f a))).
Proof.
  revert v best. induction l as [|a0 l IH]; intros v best; simpl.
  { left. split; [done|]. by intros x ?%elem_of_nil. }
  destruct (better d (Fin (f a0)) v) eqn:Hb.
  - right. destruct (IH (Fin (f a0)) (Some a0))
      as [[Heq Hall]|(pre & a & post & -> & Heq & Hba & Hpre & Hpost)].
    + exists [], a0, l. split_and!; [done|done|done| |].
      * by intros x ?%elem_of_nil.
      * intros x Hx. by apply better_Fin_false, Hall.
    + exists (a0 :: pre), a, post. split_and!; [done|done| | |done].
      * by eapply better_trans.
      * intros x [->|Hx]%elem_of_cons; [by apply better_Fin_true|by apply Hpre].
  - destruct (IH v best)
      as [[Heq Hall]|(pre & a & post & -> & Heq & Hba & Hpre & Hpost)].
    + left. split; [done|]. intros x [->|Hx]%elem_of_cons; [done|by apply Hall].
    + right. exists (a0 :: pre), a, post. split_and!; [done|done|done| |done].
      intros x [->|Hx]%elem_of_cons; [by eapply better_false_true|by apply Hpre].
Qed.

Lemma pick_initial (d : direction) (f : action → Z) (l : list action) :
  l ≠ [] →
  ∃ pre a post,
    l = pre ++ a :: post ∧
    pick d f l (initial d) None = (Fin (f a), Some a) ∧
    (∀ x, x ∈ pre → worse d (f x) (f a)) ∧
    (∀ x, x ∈ post → no_better d (f x) (f a)).
Proof.
  intros Hl.
  destruct (pick_spec d f l (initial d) None)
    as [[_ Hall]|(pre & a & post & ? & ? & _ & ? & ?)].
  - destruct l as [|x l]; [done|].
    specialize (Hall x (list_elem_of_here _ _)). by rewrite better_initial in Hall.
  - by exists pre, a, post.
Qed.

Lemma for_each_ext {A S : Type} (l : list A) (s : S)
    (body1 body2 : S → A → outcome S) :
  (∀ s x, x ∈ l → body1 s x = body2 s x) →
  for_each l s body1 = for_each l s body2.
Proof.
  revert s. induction l as [|x l IH]; intros s Hext; [done|]. simpl.
  rewrite Hext by apply list_elem_of_here.
  destruct (body2 s x) as [s'| |]; simpl; [|done..].
  apply IH. intros ???. apply Hext. by apply list_elem_of_further.
Qed.

Lemma value_after_Some (next : board → outcome (value * option action))
    (b : board) (a : action) (z : Z) :
  value_after next b a = Some z ↔
  ∃ b' o, result b a = Ret b' ∧ next b' = Ret (Fin z, o).
Proof.
  unfold value_after. split.
  - destruct (result b a) as [b'| |]; simpl; [|done..].
    unfold value_of. destruct (next b') as [[[] o]| |] eqn:Hn; try done.
    intros [= ->]. by exists b', o.
  - intros (b' & o & -> & Hn). simpl. by rewrite Hn.
Qed.

Lemma loop_body_step (d : direction)
    (next : board → outcome (value * option action)) (b : board)
    (v : value) (best : option action) (a : action)
    (b' : board) (z : Z) (o : option action) :
  result b a = Ret b' → next b' = Ret (Fin z, o) →
  loop_body d next b (v, best) a
  = Ret (if better d (Fin z) v then (Fin z, Some a) else (v, best)).
Proof.
  intros Hres Hnext. unfold loop_body. rewrite Hres. simpl. rewrite Hnext. simpl.
  by destruct (better d (Fin z) v).
Qed.

(** The monadic loop computes [pick] when every child returns a value. *)
Lemma for_each_pick (d : direction)
    (next : board → outcome (value * option action)) (b : board)
    (l : list action) (v : value) (best : option action) :
  (∀ a, a ∈ l → is_Some (value_after next b a)) →
  for_each l (v, best) (loop_body d next b)
  = Ret (pick d (λ a, default 0 (value_after next b a)) l v best).
Proof.
  revert v best. induction l as [|a l IH]; intros v best Hall; [done|].
  destruct (Hall a (list_elem_of_here _ _)) as [z Hz].
  pose proof Hz as (b' & o & Hres & Hnext)%value_after_Some.
  cbn [for_each pick]. rewrite Hz, (loop_body_step d next b v best a b' z o) by done.
  simpl. destruct (better d (Fin z) v); simpl; apply IH;
    intros ??; apply Hall; by apply list_elem_of_further.
Qed.

(** ** The search, for any enumeration order of the set of actions *)

Section SearchFacts.

Variable set_iter : list action → list action.

(** Iterating over a set yields each of its elements once. *)
Hypothesis set_iter_perm : ∀ l, NoDup l → set_iter l ≡ₚ l.

Lemma elem_of_set_iter (b : board) (a : action) :
  a ∈ set_iter (actions b) ↔ a ∈ actions b.
Proof. by rewrite (set_iter_perm _ (NoDup_actions b)). Qed.

Lemma not_terminal_actions (b : board) :
  terminal b = false → actions b ≠ [].
Proof.
  unfold terminal. intros [_ Hlen]%orb_false_iff Hnil.
  rewrite Hnil in Hlen. by rewrite bool_decide_eq_true_2 in Hlen.
Qed.

Lemma set_iter_nonempty (b : board) :
  terminal b = false → set_iter (actions b) ≠ [].
Proof.
  intros Hb%not_terminal_actions Hnil.
  pose proof (set_iter_perm _ (NoDup_actions b)) as Hp.
  rewrite Hnil in Hp. by apply Permutation_nil_l in Hp.
Qed.

Lemma search_fuel_S (d : direction) (n : nat) (b : board) :
  search_fuel set_iter d (S n) b =
  if terminal b then Ret (Fin (utility b), None)
  else for_each (set_iter (actions b)) (initial d, None)
         (loop_body d (search_fuel set_iter (opponent d) n) b).
Proof. by destruct d. Qed.

(** The loop returns the first action of the best value. *)
Lemma loop_spec (d : direction)
    (next : board → outcome (value * option action)) (b : board) :
  terminal b = false →
  (∀ a, a ∈ actions b → is_Some (value_after next b a)) →
  ∃ v a pre post,
    for_each (set_iter (actions b)) (initial d, None) (loop_body d next b)
      = Ret (Fin v, Some a) ∧
    set_iter (actions b) = pre ++ a :: post ∧
    value_after next b a = Some v ∧
    (∀ x, x ∈ pre → ∃ z, value_after next b x = Some z ∧ worse d z v) ∧
    (∀ x, x ∈ post → ∃ z, value_after next b x = Some z ∧ no_better d z v).
Proof.
  intros Hterm Hall.
  assert (Hall' : ∀ a, a ∈ set_iter (actions b) →
                       is_Some (value_after next b a))
    by (intros a Ha; by apply Hall, elem_of_set_iter).
  rewrite for_each_pick by done.
  destruct (pick_initial d (λ a, default 0 (value_after next b a))
              (set_iter (actions b)) (set_iter_nonempty b Hterm))
    as (pre & a & post & Hl & Hpick & Hpre & Hpost).
  assert (Hval : ∀ x, x ∈ set_iter (actions b) →
            value_after next b x = Some (default 0 (value_after next b x))).
  { intros x [z Hz]%Hall'. by rewrite Hz. }
  exists (default 0 (value_after next b a)), a, pre, post.
  split_and!; [by rewrite Hpick|done| | |].
  - apply Hval. rewrite Hl. set_solver.
  - intros x Hx. eexists. split; [|by apply Hpre].
    apply Hval. rewrite Hl. set_solver.
  - intros x Hx. eexists. split; [|by apply Hpost].
    apply Hval. rewrite Hl. set_solver.
Qed.

(** With more fuel than empty cells the search returns an integer value. *)
Lemma search_fuel_total (n : nat) :
  ∀ d b, wf_board b → (length (actions b) < n)%nat →
    ∃ z o, search_fuel set_iter d n b = Ret (Fin z, o).
Proof.
  induction n as [|n IH]; intros d b Hwf Hlen; [lia|].
  rewrite search_fuel_S. destruct (terminal b) eqn:Hterm; [by eauto|].
  destruct (loop_spec d (search_fuel set_iter (opponent d) n) b Hterm)
    as (v & a & _ & _ & -> & _); [|by eauto].
  intros a Ha. pose proof (result_legal b a Ha) as Hres.
  destruct (IH (opponent d) _ (result_wf _ _ _ Hwf Hres)) as (z & o & Hz).
  { apply result_fewer_actions in Hres. lia. }
  exists z. apply value_after_Some. eauto.
Qed.

(** Fuel beyond the number of empty cells does not change the result. *)
Lemma search_fuel_irrelevant (n : nat) :
  ∀ m d b, wf_board b →
    (length (actions b) < n)%nat → (length (actions b) < m)%nat →
    search_fuel set_iter d n b = search_fuel set_iter d m b.
Proof.
  induction n as [|n IH]; intros m d b Hwf Hn Hm; [lia|].
  destruct m as [|m]; [lia|]. rewrite !search_fuel_S.
  destruct (terminal b); [done|]. apply for_each_ext.
  intros [v best] a Ha%elem_of_set_iter.
  pose proof (result_legal b a Ha) as Hres.
  pose proof (result_fewer_actions _ _ _ Hres).
  unfold loop_body. rewrite Hres. simpl.
  rewrite (IH m); [done|by eapply result_wf|lia..].
Qed.

Lemma search_unfold (d : direction) (b : board) :
  search set_iter d b = search_fuel set_iter d depth b.
Proof. by destruct d. Qed.

Lemma search_total (d : direction) (b : board) :
  wf_board b → ∃ z o, search set_iter d b = Ret (Fin z, o).
Proof.
  intros Hwf. rewrite search_unfold. apply search_fuel_total; [done|].
  pose proof (actions_le_9 b). unfold depth. lia.
Qed.

(** The fuelled functions satisfy the recursive equations of the source. *)
Lemma search_eq (d : direction) (b : board) :
  wf_board b →
  search set_iter d b =
  if terminal b then Ret (Fin (utility b), None)
  else for_each (set_iter (actions b)) (initial d, None)
         (loop_body d (search set_iter (opponent d)) b).
Proof.
  intros Hwf. rewrite search_unfold. unfold depth. rewrite search_fuel_S.
  destruct (terminal b); [done|]. apply for_each_ext.
  intros [v best] a Ha%elem_of_set_iter.
  pose proof (result_legal b a Ha) as Hres.
  pose proof (result_fewer_actions _ _ _ Hres).
  pose proof (actions_le_9 b).
  unfold loop_body. rewrite Hres. simpl. rewrite search_unfold.
  rewrite (search_fuel_irrelevant 9 depth);
    [done|by eapply result_wf|unfold depth; lia..].
Qed.

Lemma value_after_total (d : direction) (b : board) (a : action) :
  wf_board b → a ∈ actions b →
  is_Some (value_after (search set_iter d) b a).
Proof.
  intros Hwf Ha. pose proof (result_legal b a Ha) as Hres.
  destruct (search_total d _ (result_wf _ _ _ Hwf Hres)) as (z & o & Hz).
  exists z. apply value_after_Some. eauto.
Qed.

Lemma search_spec (d : direction) (b : board) :
  wf_board b → terminal b = false →
  ∃ v a pre post,
    search set_iter d b = Ret (Fin v, Some a) ∧
    set_iter (actions b) = pre ++ a :: post ∧
    value_after (search set_iter (opponent d)) b a = Some v ∧
    (∀ x, x ∈ pre →
       ∃ z, value_after (search set_iter (opponent d)) b x = Some z ∧
            worse d z v) ∧
    (∀ x, x ∈ post →
       ∃ z, value_after (search set_iter (opponent d)) b x = Some z ∧
            no_better d z v).
Proof.
  intros Hwf Hterm. rewrite search_eq, Hterm by done.
  apply loop_spec; [done|]. intros a Ha. by apply value_after_total.
Qed.

Lemma search_terminal (d : direction) (b : board) :
  wf_board b → terminal b = true →
  search set_iter d b = Ret (Fin (utility b), None).
Proof. intros Hwf Hterm. by rewrite search_eq, Hterm. Qed.

(** The value is the best child value, and the action attains it. *)
Lemma search_best (d : direction) (b : board) :
  wf_board b → terminal b = false →
  ∃ v a,
    search set_iter d b = Ret (Fin v, Some a) ∧
    a ∈ actions b ∧
    value_after (search set_iter (opponent d)) b a = Some v ∧
    (∀ x, x ∈ actions b →
       ∃ z, value_after (search set_iter (opponent d)) b x = Some z ∧
            no_better d z v).
Proof.
  intros Hwf Hterm.
  destruct (search_spec d b Hwf Hterm)
    as (v & a & pre & post & Hs & Hl & Ha & Hpre & Hpost).
  exists v, a. split_and!; [done| |done|].
  - apply elem_of_set_iter. rewrite Hl. set_solver.
  - intros x Hx%elem_of_set_iter. rewrite Hl in Hx.
    apply elem_of_app in Hx as [Hx|[->|Hx]%elem_of_cons].
    + destruct (Hpre x Hx) as (z & ? & ?). exists z. split; [done|].
      by apply worse_no_better.
    + exists v. split; [done|]. destruct d; simpl; lia.
    + by apply Hpost.
Qed.

End SearchFacts.

(** ** The value of a board does not depend on the enumeration order *)

Lemma id_perm (l : list action) : NoDup l → id l ≡ₚ l.
Proof. done. Qed.

Lemma hash_order_perm (l : list action) : NoDup l → hash_order l ≡ₚ l.
Proof.
  intros Hl. unfold hash_order. apply NoDup_Permutation; [|done|].
  - apply NoDup_app. split_and!.
    + apply NoDup_filter. by apply (bool_decide_unpack (NoDup table_order)).
    + intros x [Hx1 Hx2]%list_elem_of_filter [Hx3 _]%list_elem_of_filter. done.
    + by apply NoDup_filter.
  - intros x. rewrite elem_of_app, !list_elem_of_filter.
    destruct (decide (x ∈ table_order)); tauto.
Qed.

Lemma value_after_result (next : board → outcome (value * option action))
    (b b' : board) (a : action) :
  result b a = Ret b' → value_after next b a = value_of (next b').
Proof. unfold value_after. by intros ->. Qed.

Lemma search_value_order (o1 o2 : list action → list action) :
  (∀ l, NoDup l → o1 l ≡ₚ l) → (∀ l, NoDup l → o2 l ≡ₚ l) →
  ∀ n d b, wf_board b → (length (actions b) < n)%nat →
    value_of (search o1 d b) = value_of (search o2 d b).
Proof.
  intros H1 H2. induction n as [|n IH]; intros d b Hwf Hlen; [lia|].
  destruct (terminal b) eqn:Hterm.
  { by rewrite !search_terminal. }
  assert (Hchild : ∀ x, x ∈ actions b →
            value_after (search o1 (opponent d)) b x
            = value_after (search o2 (opponent d)) b x).
  { intros x Hx. pose proof (result_legal b x Hx) as Hres.
    rewrite !(value_after_result _ _ _ _ Hres).
    apply IH; [by eapply result_wf|].
    apply result_fewer_actions in Hres. lia. }
  destruct (search_best o1 H1 d b Hwf Hterm) as (v1 & a1 & -> & Ha1 & Hv1 & Hb1).
  destruct (search_best o2 H2 d b Hwf Hterm) as (v2 & a2 & -> & Ha2 & Hv2 & Hb2).
  simpl. f_equal.
  destruct (Hb1 a2 Ha2) as (z2 & Hz2 & Hle2).
  destruct (Hb2 a1 Ha1) as (z1 & Hz1 & Hle1).
  rewrite Hchild in Hv1, Hz2 by done. simplify_eq.
  by eapply no_better_antisym.
Qed.

Lemma search_value_id (o : list action → list action) (d : direction) (b : board) :
  (∀ l, NoDup l → o l ≡ₚ l) → wf_board b →
  value_of (search o d b) = value_of (search id d b).
Proof.
  intros Ho Hwf.
  apply (search_value_order o id Ho id_perm (S (length (actions b))) d b Hwf).
  lia.
Qed.

Lemma value_after_id (o : list action → list action) (d : direction)
    (b : board) (a : action) :
  (∀ l, NoDup l → o l ≡ₚ l) → wf_board b →
  value_after (search o d) b a = value_after (search id d) b a.
Proof.
  intros Ho Hwf. unfold value_after.
  destruct (result b a) as [b'| |] eqn:Hres; simpl; [|reflexivity..].
  apply search_value_id; [done|by eapply result_wf].
Qed.

(** ** Counting cells *)

Lemma cell_counts (c : cell) :
  (empty_count c + symbol_count X c + symbol_count O c = 1)%nat.
Proof. by destruct c as [[]|]. Qed.

Lemma length_cell_action (c : cell) (a : action) :
  length (if bool_decide (Some c = Some None) then [a] else []) = empty_count c.
Proof. by destruct c. Qed.

Lemma row_count_cons (s : symbol) (c : cell) (r : row) :
  length (filter (λ c, c = Some s) (c :: r))
  = (symbol_count s c + length (filter (λ c, c = Some s) r))%nat.
Proof. rewrite filter_cons. unfold symbol_count. by case_decide. Qed.

Lemma row_count_insert (s p : symbol) (r : row) (j : nat) :
  r !! j = Some None →
  length (filter (λ c, c = Some s) (<[j := Some p]> r))
  = (length (filter (λ c, c = Some s) r) + if decide (s = p) then 1 else 0)%nat.
Proof.
  revert j. induction r as [|c r IH]; intros [|j] Hj; try done; simpl in *.
  - injection Hj as ->. rewrite !row_count_cons. unfold symbol_count.
    repeat case_decide; simplify_eq; lia.
  - rewrite !row_count_cons, IH by done. lia.
Qed.

Lemma count_symbol_set_cell (s p : symbol) (b : board) (i j : nat) :
  cell_at b i j = Some None →
  count_symbol s (set_cell b i j (Some p))
  = (count_symbol s b + if decide (s = p) then 1 else 0)%nat.
Proof.
  unfold count_symbol, set_cell, cell_at.
  revert i. induction b as [|r b IH]; intros [|i] Hc; try done; csimpl in *.
  - rewrite row_count_insert by done. lia.
  - rewrite (IH i Hc). lia.
Qed.

(** ** Claims *)

(** C8: on a 3x3 board, the number of actions plus the number of X cells
    plus the number of O cells is 9. *)
Theorem actions_count_complement (b : board) :
  wf_board b →
  (length (actions b) + count_symbol X b + count_symbol O b = 9)%nat.
Proof.
  intros (c00&c01&c02&c10&c11&c12&c20&c21&c22&->)%wf_board_inv.
  unfold actions, count_symbol. cbn -[bool_decide filter].
  rewrite !length_app, !length_cell_action, !row_count_cons. simpl.
  pose proof (cell_counts c00). pose proof (cell_counts c01).
  pose proof (cell_counts c02). pose proof (cell_counts c10).
  pose proof (cell_counts c11). pose proof (cell_counts c12).
  pose proof (cell_counts c20). pose proof (cell_counts c21).
  pose proof (cell_counts c22). lia.
Qed.

Lemma actions_count_complement_witness :
  wf_board block_board ∧
  (length (actions block_board) + count_symbol X block_board
   + count_symbol O block_board = 9)%nat.
Proof.
  assert (Hwf : wf_board block_board) by (split; [reflexivity|by repeat constructor]).
  split; [exact Hwf|exact (actions_count_complement block_board Hwf)].
Defined.

(** C10: [utility] needs no terminal board.  It is 1, -1 or 0 according
    to [winner], hence 0 on every board on which [winner] is [None]; a
    board that is not terminal has no winner, so [utility] is 0 on every
    board still in progress. *)
Theorem utility_total (b : board) :
  wf_board b →
  (winner b = Some X ∧ utility b = 1 ∨
   winner b = Some O ∧ utility b = -1 ∨
   winner b = None ∧ utility b = 0) ∧
  (winner b = None → utility b = 0) ∧
  (terminal b = false → winner b = None ∧ utility b = 0).
Proof.
  intros _. unfold utility, terminal. split_and!.
  - destruct (winner b) as [[]|]; simpl; tauto.
  - by intros ->.
  - intros [Hw _]%orb_false_iff. apply bool_decide_eq_false in Hw.
    apply dec_stable in Hw. by rewrite Hw.
Qed.

Lemma utility_total_witness :
  wf_board block_board ∧
  terminal block_board = false ∧
  winner block_board = None ∧
  utility block_board = 0.
Proof.
  assert (Hwf : wf_board block_board) by (split; [reflexivity|by repeat constructor]).
  split; [exact Hwf|]. split; [reflexivity|].
  exact (proj2 (proj2 (utility_total block_board Hwf)) eq_refl).
Defined.

Lemma wf_block_board : wf_board block_board.
Proof. split; [reflexivity|by repeat constructor]. Qed.

Lemma minimax_eq (o : list action → list action) (b : board) :
  minimax o b =
  if terminal b then Ret None
  else '(_, a) ← search o (if bool_decide (player b = X) then Max else Min) b;
       Ret a.
Proof. unfold minimax. destruct (terminal b); [done|]. by case_bool_decide. Qed.

(** C3: on a non-terminal board [max_value] returns the maximum of the
    successor values together with the first action, in enumeration order,
    that has this value (actions enumerated earlier are strictly smaller,
    later ones at most equal); [min_value] returns the minimum and the first
    action of that value. *)
Theorem search_first_best (set_iter : list action → list action) (b : board) :
  (∀ l, NoDup l → set_iter l ≡ₚ l) →
  wf_board b → terminal b = false →
  first_maximum set_iter b ∧ first_minimum set_iter b.
Proof.
  intros Hperm Hwf Hterm. split.
  - destruct (search_spec set_iter Hperm Max b Hwf Hterm)
      as (v & a & pre & post & Hs & Hl & Ha & Hpre & Hpost).
    destruct (search_best set_iter Hperm Max b Hwf Hterm)
      as (v' & a' & Hs' & _ & _ & Hall).
    rewrite Hs in Hs'. injection Hs' as <- <-.
    by exists v, a, pre, post.
  - destruct (search_spec set_iter Hperm Min b Hwf Hterm)
      as (v & a & pre & post & Hs & Hl & Ha & Hpre & Hpost).
    destruct (search_best set_iter Hperm Min b Hwf Hterm)
      as (v' & a' & Hs' & _ & _ & Hall).
    rewrite Hs in Hs'. injection Hs' as <- <-.
    by exists v, a, pre, post.
Qed.

Lemma search_first_best_witness :
  (∀ l : list action, NoDup l → id l ≡ₚ l) ∧
  wf_board block_board ∧ terminal block_board = false ∧
  first_maximum id block_board ∧ first_minimum id block_board.
Proof.
  assert (Hperm : ∀ l : list action, NoDup l → id l ≡ₚ l) by (intros l _; reflexivity).
  assert (Hwf : wf_board block_board) by (split; [reflexivity|by repeat constructor]).
  assert (Hterm : terminal block_board = false) by reflexivity.
  split; [exact Hperm|]. split; [exact Hwf|]. split; [exact Hterm|].
  exact (search_first_best id block_board Hperm Hwf Hterm).
Defined.

(** C2: on a non-terminal board [minimax] returns an action, never [None],
    and the action is one of [actions(board)]: its cell is empty. *)
Theorem minimax_legal (set_iter : list action → list action) (b : board) :
  (∀ l, NoDup l → set_iter l ≡ₚ l) →
  wf_board b → terminal b = false →
  ∃ a, minimax set_iter b = Ret (Some a) ∧ a ∈ actions b ∧
       cell_at b (Z.to_nat a.1) (Z.to_nat a.2) = Some None.
Proof.
  intros Hperm Hwf Hterm. rewrite minimax_eq, Hterm.
  destruct (search_best set_iter Hperm
              (if bool_decide (player b = X) then Max else Min) b Hwf Hterm)
    as (v & a & -> & Ha & _).
  exists a. split_and!; [done|done|].
  apply elem_of_actions in Ha as (i & j & _ & _ & -> & Hc).
  simpl. by rewrite !Nat2Z.id.
Qed.

Lemma minimax_legal_witness :
  (∀ l : list action, NoDup l → id l ≡ₚ l) ∧
  wf_board block_board ∧ terminal block_board = false ∧
  ∃ a, minimax id block_board = Ret (Some a) ∧ a ∈ actions block_board ∧
       cell_at block_board (Z.to_nat a.1) (Z.to_nat a.2) = Some None.
Proof.
  assert (Hperm : ∀ l : list action, NoDup l → id l ≡ₚ l) by (intros l _; reflexivity).
  assert (Hwf : wf_board block_board) by (split; [reflexivity|by repeat constructor]).
  assert (Hterm : terminal block_board = false) by reflexivity.
  split; [exact Hperm|]. split; [exact Hwf|]. split; [exact Hterm|].
  exact (minimax_legal id block_board Hperm Hwf Hterm).
Defined.

Lemma result_Raise (b : board) (a : action) (msg : string) :
  result b a = Raise msg ↔ (a ∉ actions b) ∧ msg = invalid_action.
Proof.
  unfold result. case_bool_decide as Ha.
  - split; [by intros [= <-]|by intros [_ ->]].
  - split; [done|]. by intros [? _].
Qed.

Lemma not_in_actions (b : board) (a : action) :
  wf_board b → a ∉ actions b ↔ ¬ in_range a ∨ occupied b a.
Proof.
  intros Hwf. unfold in_range, occupied. destruct a as [x y]. simpl. split.
  - intros Hna.
    destruct (decide (0 ≤ x ≤ 2 ∧ 0 ≤ y ≤ 2)) as [[Hx Hy]|]; [right|by left].
    destruct (wf_cell_at b (Z.to_nat x) (Z.to_nat y) Hwf) as [[s|] Hc]; [lia|lia|by eauto|].
    destruct Hna. apply elem_of_actions.
    exists (Z.to_nat x), (Z.to_nat y). split_and!; [lia|lia| |done].
    by rewrite !Z2Nat.id by lia.
  - intros Hbad (i & j & Hi & Hj & [= -> ->] & Hc)%elem_of_actions.
    rewrite !Nat2Z.id in Hbad. destruct Hbad as [Hr|[s Hs]]; [lia|congruence].
Qed.

Lemma minimax_returns (o : list action → list action) (b : board) :
  (∀ l, NoDup l → o l ≡ₚ l) → wf_board b → returns (minimax o b).
Proof.
  intros Hperm Hwf. rewrite minimax_eq. destruct (terminal b); [by eexists|].
  destruct (search_total o Hperm
              (if bool_decide (player b = X) then Max else Min) b Hwf)
    as (z & a & ->).
  by eexists.
Qed.

(** C6: [result] raises "Invalid action" exactly when the coordinates are
    out of range or the target cell is not empty, and returns a board
    otherwise; the search applies only actions it enumerated, so
    [max_value], [min_value] and [minimax] never raise. *)
Theorem invalid_action_raised (set_iter : list action → list action) (b : board) :
  (∀ l, NoDup l → set_iter l ≡ₚ l) →
  wf_board b →
  (∀ a, result b a = Raise invalid_action ↔ ¬ in_range a ∨ occupied b a) ∧
  (∀ a, ¬ (¬ in_range a ∨ occupied b a) → returns (result b a)) ∧
  (∀ msg, max_value set_iter b ≠ Raise msg ∧
          min_value set_iter b ≠ Raise msg ∧
          minimax set_iter b ≠ Raise msg).
Proof.
  intros Hperm Hwf. split_and!.
  - intros a. rewrite result_Raise, not_in_actions by done. tauto.
  - intros a Hok. rewrite <- not_in_actions in Hok by done.
    apply dec_stable in Hok. eexists. by apply result_legal.
  - intros msg.
    destruct (search_total set_iter Hperm Max b Hwf) as (z1 & a1 & H1).
    destruct (search_total set_iter Hperm Min b Hwf) as (z2 & a2 & H2).
    destruct (minimax_returns set_iter b Hperm Hwf) as [a3 H3].
    simpl in H1, H2. rewrite H1, H2, H3. done.
Qed.

Lemma invalid_action_raised_witness :
  (∀ l : list action, NoDup l → id l ≡ₚ l) ∧
  wf_board block_board ∧
  result block_board (0, 0) = Raise invalid_action ∧
  result block_board (3, 0) = Raise invalid_action ∧
  result block_board (0, -1) = Raise invalid_action ∧
  returns (result block_board (0, 2)) ∧
  ∀ msg, minimax id block_board ≠ Raise msg.
Proof.
  assert (Hperm : ∀ l : list action, NoDup l → id l ≡ₚ l) by (intros l _; reflexivity).
  assert (Hwf : wf_board block_board) by (split; [reflexivity|by repeat constructor]).
  destruct (invalid_action_raised id block_board Hperm Hwf) as (Hiff & Hret & Hnever).
  split; [exact Hperm|]. split; [exact Hwf|].
  split; [apply Hiff; right; exists X; reflexivity|].
  split; [apply Hiff; left; unfold in_range; simpl; lia|].
  split; [apply Hiff; left; unfold in_range; simpl; lia|].
  split; [|intros msg; apply Hnever].
  apply Hret. unfold in_range, occupied. simpl. intros [Hr|[s Hs]]; [lia|discriminate].
Defined.

(** C9: the search is total.  On every 3x3 board [max_value], [min_value]
    and [minimax] return; any fuel above the number of empty cells gives
    the same result; and every recursive call is on a board with strictly
    fewer empty cells. *)
Theorem search_terminates (set_iter : list action → list action) (b : board) :
  (∀ l, NoDup l → set_iter l ≡ₚ l) →
  wf_board b →
  returns (max_value set_iter b) ∧
  returns (min_value set_iter b) ∧
  returns (minimax set_iter b) ∧
  (∀ n, (length (actions b) < n)%nat →
     max_value_fuel set_iter n b = max_value set_iter b ∧
     min_value_fuel set_iter n b = min_value set_iter b) ∧
  (∀ a b', a ∈ set_iter (actions b) → result b a = Ret b' →
     wf_board b' ∧ (length (actions b') < length (actions b))%nat).
Proof.
  intros Hperm Hwf.
  pose proof (actions_le_9 b) as H9.
  split_and!.
  - destruct (search_total set_iter Hperm Max b Hwf) as (z & a & H). by eexists.
  - destruct (search_total set_iter Hperm Min b Hwf) as (z & a & H). by eexists.
  - by apply minimax_returns.
  - intros n Hn. split.
    + apply (search_fuel_irrelevant set_iter Hperm n depth Max b Hwf Hn).
      unfold depth. lia.
    + apply (search_fuel_irrelevant set_iter Hperm n depth Min b Hwf Hn).
      unfold depth. lia.
  - intros a b' _ Hres. split; [by eapply result_wf|by eapply result_fewer_actions].
Qed.

Lemma search_terminates_witness :
  (∀ l : list action, NoDup l → id l ≡ₚ l) ∧
  wf_board block_board ∧
  returns (max_value id block_board) ∧
  returns (min_value id block_board) ∧
  returns (minimax id block_board).
Proof.
  assert (Hperm : ∀ l : list action, NoDup l → id l ≡ₚ l) by (intros l _; reflexivity).
  assert (Hwf : wf_board block_board) by (split; [reflexivity|by repeat constructor]).
  destruct (search_terminates id block_board Hperm Hwf) as (H1 & H2 & H3 & _).
  split; [exact Hperm|]. split; [exact Hwf|]. split; [exact H1|]. split; [exact H2|exact H3].
Defined.

(** ** Ties: when all moves have the same value, the first one is returned *)

Lemma search_ties_head (o : list action → list action) (d : direction)
    (b : board) (v : Z) :
  (∀ l, NoDup l → o l ≡ₚ l) →
  wf_board b → terminal b = false →
  (∀ x, x ∈ actions b → value_after (search o (opponent d)) b x = Some v) →
  search o d b = Ret (Fin v, head (o (actions b))).
Proof.
  intros Hperm Hwf Hterm Hall.
  destruct (search_spec o Hperm d b Hwf Hterm)
    as (v' & a & pre & post & -> & Hl & Ha & Hpre & _).
  assert (Hin : ∀ x, x ∈ pre ++ a :: post → x ∈ actions b).
  { intros x Hx. apply (elem_of_set_iter o Hperm). by rewrite Hl. }
  rewrite Hall in Ha by (apply Hin; set_solver). injection Ha as <-.
  destruct pre as [|x pre]; [by rewrite Hl|].
  destruct (Hpre x (list_elem_of_here _ _)) as (z & Hz & Hworse).
  rewrite Hall in Hz by (apply Hin; set_solver). injection Hz as <-.
  by apply worse_irrefl in Hworse.
Qed.

Lemma minimax_ties_head (o : list action → list action) (b : board) (v : Z) :
  (∀ l, NoDup l → o l ≡ₚ l) →
  wf_board b → terminal b = false →
  (∀ x, x ∈ actions b →
     value_after
       (search id (opponent (if bool_decide (player b = X) then Max else Min)))
       b x = Some v) →
  minimax o b = Ret (head (o (actions b))).
Proof.
  intros Hperm Hwf Hterm Hall. rewrite minimax_eq, Hterm.
  rewrite (search_ties_head o _ b v Hperm Hwf Hterm); [done|].
  intros x Hx. rewrite value_after_id by done. by apply Hall.
Qed.

(** Every O move on [block_board] has value 1: X wins with best play. *)
Lemma block_board_values (x : action) :
  x ∈ actions block_board →
  value_after (search id Max) block_board x = Some 1.
Proof.
  intros Hx. apply (Forall_forall (λ x, value_after (search id Max) block_board x = Some 1)
                      (actions block_board)); [|done].
  apply (bool_decide_unpack _). by vm_compute.
Qed.

(** Every opening move has value 0: the one exhaustive evaluation of the
    whole game tree, in insertion order. *)
Lemma opening_values (x : action) :
  x ∈ actions empty_board →
  value_after (search id Min) empty_board x = Some 0.
Proof.
  intros Hx. apply (Forall_forall (λ x, value_after (search id Min) empty_board x = Some 0)
                      (actions empty_board)); [|done].
  apply (bool_decide_unpack _).
  vm_cast_no_check I.
Qed.

(** C4, for every enumeration order: on [block_board] every move of O has
    value 1, so [minimax] returns the first action in the enumeration order
    of [actions(board)]; that is (0,2) when the set is enumerated in the
    order of insertion. *)
Theorem block_board_first_action (set_iter : list action → list action) :
  (∀ l, NoDup l → set_iter l ≡ₚ l) →
  (∀ x, x ∈ actions block_board →
     value_after (max_value set_iter) block_board x = Some 1) ∧
  minimax set_iter block_board = Ret (head (set_iter (actions block_board))) ∧
  minimax id block_board = Ret (Some (0, 2)).
Proof.
  intros Hperm. split_and!.
  - intros x Hx. rewrite <- (block_board_values x Hx).
    apply (value_after_id set_iter Max); [done|apply wf_block_board].
  - apply (minimax_ties_head set_iter block_board 1 Hperm wf_block_board);
      [reflexivity|apply block_board_values].
  - by vm_compute.
Qed.

Lemma block_board_first_action_witness :
  (∀ l : list action, NoDup l → id l ≡ₚ l) ∧
  minimax id block_board = Ret (head (id (actions block_board))).
Proof.
  assert (Hperm : ∀ l : list action, NoDup l → id l ≡ₚ l) by (intros l _; reflexivity).
  split; [exact Hperm|].
  exact (proj1 (proj2 (block_board_first_action id Hperm))).
Defined.

(** C4 does not hold for every order: enumerating the set in [hash_order],
    [minimax] returns (1,2) and leaves the top row open. *)
Lemma block_not_chosen :
  (∀ l, NoDup l → hash_order l ≡ₚ l) ∧
  hash_order (actions block_board) = [(1, 2); (2, 1); (1, 1); (2, 0); (0, 2); (2, 2)] ∧
  minimax hash_order block_board = Ret (Some (1, 2)) ∧
  minimax hash_order block_board ≠ Ret (Some (0, 2)).
Proof.
  split; [exact hash_order_perm|]. split; [reflexivity|].
  assert (H : minimax hash_order block_board = Ret (Some (1, 2))) by (by vm_compute).
  split; [exact H|]. rewrite H. discriminate.
Qed.

(** C5, for every enumeration order: all nine opening moves have value 0,
    so on the empty board [minimax] returns the first action in the
    enumeration order of [actions(board)], a fixed cell for a fixed
    enumeration; it is the corner (0,0) when the set is enumerated in the
    order of insertion. *)
Theorem opening_first_action (set_iter : list action → list action) :
  (∀ l, NoDup l → set_iter l ≡ₚ l) →
  (∀ x, x ∈ actions empty_board →
     value_after (min_value set_iter) empty_board x = Some 0) ∧
  minimax set_iter empty_board = Ret (head (set_iter (actions empty_board))) ∧
  head (id (actions empty_board)) = Some (0, 0).
Proof.
  intros Hperm. split_and!.
  - intros x Hx. rewrite <- (opening_values x Hx).
    apply (value_after_id set_iter Min); [done|apply wf_empty_board].
  - apply (minimax_ties_head set_iter empty_board 0 Hperm wf_empty_board);
      [reflexivity|apply opening_values].
  - reflexivity.
Qed.

Lemma opening_first_action_witness :
  (∀ l : list action, NoDup l → id l ≡ₚ l) ∧
  minimax id empty_board = Ret (Some (0, 0)).
Proof.
  assert (Hperm : ∀ l : list action, NoDup l → id l ≡ₚ l) by (intros l _; reflexivity).
  split; [exact Hperm|].
  exact (proj1 (proj2 (opening_first_action id Hperm))).
Defined.

(** C5 does not hold for every order: enumerating the set in [hash_order],
    the opening move is the edge (0,1), neither a corner nor the center. *)
Lemma opening_on_edge :
  (∀ l, NoDup l → hash_order l ≡ₚ l) ∧
  hash_order (actions empty_board) = table_order ∧
  minimax hash_order empty_board = Ret (Some (0, 1)) ∧
  (0, 1) ∉ corners_and_center.
Proof.
  split; [exact hash_order_perm|]. split; [reflexivity|]. split.
  - apply (minimax_ties_head hash_order empty_board 0 hash_order_perm wf_empty_board);
      [reflexivity|apply opening_values].
  - apply (bool_decide_unpack _). by vm_compute.
Qed.

(** ** Two perfect players *)

Lemma to_move_player (d : direction) (b : board) :
  to_move d b → (if bool_decide (player b = X) then Max else Min) = d.
Proof.
  unfold to_move, player. destruct d; intros Hc; rewrite Hc.
  - by rewrite (bool_decide_eq_true_2 (_ ≤ _)%nat).
  - by rewrite (bool_decide_eq_false_2 (_ ≤ _)%nat) by lia.
Qed.

Lemma to_move_result (d : direction) (b b' : board) (a : action) :
  to_move d b → result b a = Ret b' → to_move (opponent d) b'.
Proof.
  intros Hd [Ha ->]%result_Ret.
  apply elem_of_actions in Ha as (i & j & _ & _ & -> & Hc).
  simpl. rewrite !Nat2Z.id.
  assert (Hp : player b = match d with Max => X | Min => O end).
  { apply to_move_player in Hd.
    destruct d; case_bool_decide; try done; by destruct (player b). }
  unfold to_move in *. rewrite !count_symbol_set_cell, Hp by done.
  destruct d; simpl; repeat case_decide; try done; lia.
Qed.

Lemma utility_0_winner (b : board) : utility b = 0 → winner b = None.
Proof. unfold utility. by destruct (winner b) as [[]|]. Qed.

Lemma self_play_S (o : list action → list action) (n : nat) (b : board) :
  self_play o (S n) b =
  if terminal b then Ret b
  else a ← minimax o b;
       b' ← match a with
            | Some a => result b a
            | None => Raise invalid_action
            end;
       self_play o n b'.
Proof. reflexivity. Qed.

(** From a position of value 0 with the right player to move, optimal play
    by both sides ends on a board without winner. *)
Lemma self_play_value_0 (o : list action → list action) (n : nat) :
  (∀ l, NoDup l → o l ≡ₚ l) →
  ∀ d b, wf_board b → to_move d b →
    value_of (search o d b) = Some 0 →
    (length (actions b) < n)%nat →
    ∃ final, self_play o n b = Ret final ∧ terminal final = true ∧
             winner final = None ∧ utility final = 0.
Proof.
  intros Hperm. induction n as [|n IH]; intros d b Hwf Hd Hval Hlen; [lia|].
  rewrite self_play_S. destruct (terminal b) eqn:Hterm.
  - rewrite search_terminal in Hval by done. injection Hval as Hu.
    exists b. split_and!; [done|done| |done]. by apply utility_0_winner.
  - rewrite minimax_eq, Hterm, (to_move_player d b Hd).
    destruct (search_best o Hperm d b Hwf Hterm) as (v & a & Hs & Ha & Hv & _).
    rewrite Hs in Hval |- *. injection Hval as ->. simpl.
    pose proof (result_legal b a Ha) as Hres. rewrite Hres. simpl.
    apply (IH (opponent d)).
    + by eapply result_wf.
    + by eapply to_move_result.
    + by rewrite <- (value_after_result _ _ _ _ Hres).
    + apply result_fewer_actions in Hres. lia.
Qed.

(** C1: from the empty board, with both sides' moves chosen by [minimax] and
    applied by [result] until the board is terminal, the game ends on a
    board that has no winner and utility 0. *)
Theorem perfect_play_draw (set_iter : list action → list action) (n : nat) :
  (∀ l, NoDup l → set_iter l ≡ₚ l) →
  (9 < n)%nat →
  ∃ final,
    self_play set_iter n empty_board = Ret final ∧
    terminal final = true ∧ winner final = None ∧ utility final = 0.
Proof.
  intros Hperm Hn.
  apply (self_play_value_0 set_iter n Hperm Max); [apply wf_empty_board|reflexivity| |].
  - rewrite (search_value_id set_iter Max) by (done || apply wf_empty_board).
    rewrite (search_ties_head id Max empty_board 0 id_perm wf_empty_board);
      [reflexivity|reflexivity|apply opening_values].
  - pose proof (actions_le_9 empty_board). lia.
Qed.

Lemma perfect_play_draw_witness :
  (∀ l : list action, NoDup l → id l ≡ₚ l) ∧
  (9 < depth)%nat ∧
  ∃ final,
    self_play id depth empty_board = Ret final ∧
    terminal final = true ∧ winner final = None ∧ utility final = 0.
Proof.
  assert (Hperm : ∀ l : list action, NoDup l → id l ≡ₚ l) by (intros l _; reflexivity).
  assert (Hn : (9 < depth)%nat) by (unfold depth; lia).
  split; [exact Hperm|]. split; [exact Hn|].
  exact (perfect_play_draw id depth Hperm Hn).
Defined.

(** ** [result] on objects: a fresh board, the argument untouched *)

Lemma heap_read_board (h : Heap.heap) (l : Heap.loc) (b : board) :
  Heap.board_at h l b → Heap.read_board h l = Some b.
Proof.
  intros (rs & Hl & _ & Hrows). unfold Heap.read_board, Heap.read_rows.
  rewrite Hl. simpl. apply mapM_Some.
  eapply Forall2_impl; [done|]. intros r cs Hr. unfold Heap.read_row. by rewrite Hr.
Qed.

Lemma heap_deepcopy_rows (rs : list Heap.loc) :
  ∀ (h : Heap.heap) (memo : gmap Heap.loc Heap.loc) (b : board),
    NoDup rs → (∀ r, r ∈ rs → memo !! r = None) →
    Forall2 (λ r cs, h !! r = Some (Heap.Row cs)) rs b →
    ∃ h' memo' rs',
      Heap.deepcopy_rows h memo rs = Some (h', memo', rs') ∧
      (∀ k, k ∈ dom h → h' !! k = h !! k) ∧
      Forall2 (λ r cs, h' !! r = Some (Heap.Row cs)) rs' b ∧
      NoDup rs' ∧ (∀ r, r ∈ rs' → r ∉ dom h).
Proof.
  induction rs as [|r rs IH]; intros h memo b Hnd Hmemo Hrows.
  { apply Forall2_nil_inv_l in Hrows as ->. exists h, memo, [].
    split_and!; [done|done|constructor|constructor|by intros ? ?%elem_of_nil]. }
  apply Forall2_cons_inv_l in Hrows as (cs & b' & Hr & Hrows & ->).
  apply NoDup_cons in Hnd as [Hr_notin Hnd].
  set (r' := fresh (dom h)).
  assert (Hfresh : r' ∉ dom h) by apply is_fresh.
  set (h1 := <[r' := Heap.Row cs]> h).
  assert (Hold : ∀ k, k ∈ dom h → h1 !! k = h !! k).
  { intros k Hk. unfold h1. rewrite lookup_insert_ne; [done|]. by intros ->. }
  destruct (IH h1 (<[r := r']> memo) b') as (h' & memo' & rs' & Hcopy & Hsame & Hrows' & Hnd' & Hnew).
  - done.
  - intros x Hx. rewrite lookup_insert_ne; [|by intros ->].
    apply Hmemo. by apply list_elem_of_further.
  - eapply Forall2_impl; [done|]. intros x csx Hx. simpl in Hx.
    rewrite Hold; [done|]. by eapply elem_of_dom_2.
  - exists h', memo', (r' :: rs').
    assert (Hr'1 : r' ∈ dom h1)
      by (unfold h1; rewrite dom_insert_L; apply elem_of_union_l, elem_of_singleton; done).
    split_and!.
    + simpl. unfold Heap.deepcopy_row, Heap.read_row.
      rewrite (Hmemo r (list_elem_of_here _ _)), Hr. simpl.
      fold r'. fold h1. by rewrite Hcopy.
    + intros k Hk. rewrite Hsame, Hold; [done|done|].
      unfold h1. rewrite dom_insert_L. by apply elem_of_union_r.
    + constructor; [|done]. rewrite (Hsame r' Hr'1). unfold h1. apply lookup_insert_eq.
    + apply NoDup_cons. split; [|done]. intros Hin. by apply (Hnew r' Hin).
    + intros x [->|Hx]%elem_of_cons; [done|].
      intros Hxh. apply (Hnew x Hx). unfold h1. rewrite dom_insert_L.
      by apply elem_of_union_r.
Qed.

Lemma heap_deepcopy (h : Heap.heap) (l : Heap.loc) (b : board) :
  Heap.board_at h l b →
  ∃ h' l',
    Heap.deepcopy h l = Some (h', l') ∧
    Heap.board_at h' l' b ∧
    (∀ k, k ∈ dom h → h' !! k = h !! k) ∧
    (l' ∉ dom h) ∧
    (∀ rs' r, h' !! l' = Some (Heap.Grid rs') → r ∈ rs' → (r ∉ dom h)).
Proof.
  intros (rs & Hl & Hnd & Hrows).
  set (y := fresh (dom h)).
  assert (Hy : y ∉ dom h) by apply is_fresh.
  set (h0 := <[y := Heap.Grid []]> h).
  assert (Hold0 : ∀ k, k ∈ dom h → h0 !! k = h !! k).
  { intros k Hk. unfold h0. rewrite lookup_insert_ne; [done|]. by intros ->. }
  assert (Hdom0 : dom h0 = {[y]} ∪ dom h) by (unfold h0; by rewrite dom_insert_L).
  destruct (heap_deepcopy_rows rs h0 {[l := y]} b) as (h1 & memo' & rs' & Hcopy & Hsame & Hrows' & Hnd' & Hnew).
  - done.
  - intros r Hr. apply lookup_singleton_ne. intros <-.
    destruct (Forall2_lookup_l _ _ _ 0%nat l Hrows) as (cs & _ & Hcs); [|congruence].
    apply list_elem_of_lookup in Hr as [i Hi].
    destruct (Forall2_lookup_l _ _ _ i l Hrows Hi) as (cs' & _ & Hcs'). congruence.
  - eapply Forall2_impl; [done|]. intros x csx Hx. simpl in Hx.
    rewrite Hold0; [done|]. by eapply elem_of_dom_2.
  - assert (Hrs'y : ∀ r, r ∈ rs' → r ≠ y).
    { intros r Hr ->. apply (Hnew y Hr). rewrite Hdom0.
      by apply elem_of_union_l, elem_of_singleton. }
    exists (<[y := Heap.Grid rs']> h1), y. split_and!.
    + unfold Heap.deepcopy, Heap.read_rows. rewrite Hl. simpl.
      fold y. fold h0. by rewrite Hcopy.
    + exists rs'. split_and!; [apply lookup_insert_eq|done|].
      apply Forall2_same_length_lookup. split; [by eapply Forall2_length|].
      intros i r cs Hi Hcs. rewrite lookup_insert_ne.
      * exact (Forall2_lookup_lr _ _ _ _ _ _ Hrows' Hi Hcs).
      * intros <-. eapply Hrs'y; [|done]. apply list_elem_of_lookup. eauto.
    + intros k Hk. rewrite lookup_insert_ne by (by intros <-).
      rewrite Hsame, Hold0; [done|done|]. rewrite Hdom0. by apply elem_of_union_r.
    + done.
    + intros rs'' r. rewrite lookup_insert_eq. intros [= <-] Hr Hrh.
      apply (Hnew r Hr). rewrite Hdom0. by apply elem_of_union_r.
Qed.

(** C7: for a legal action (coordinates in range, target cell empty)
    [result] returns a new board whose target cell is [player(board)] and
    whose other cells are those of the input; the input board object is not
    modified. *)
Theorem result_new_board (h : Heap.heap) (l : Heap.loc) (b : board) (a : action) :
  Heap.board_at h l b → wf_board b →
  in_range a → cell_at b (Z.to_nat a.1) (Z.to_nat a.2) = Some None →
  fresh_result h l b a.
Proof.
  intros Hb Hwf [Hr1 Hr2] Hc.
  set (i := Z.to_nat a.1) in *. set (j := Z.to_nat a.2) in *.
  set (v := Some (player b)).
  assert (Ha : a ∈ actions b).
  { apply elem_of_actions. exists i, j.
    destruct (cell_at_lt b i j None Hwf Hc). split_and!; [done|done| |done].
    destruct a as [x y]. simpl in *. unfold i, j. by rewrite !Z2Nat.id by lia. }
  destruct (heap_deepcopy h l b Hb) as (h1 & l1 & Hcopy & Hb1 & Hsame & Hl1 & Hnew).
  pose proof Hb1 as (rs1 & Hl1' & Hnd1 & Hrows1).
  unfold cell_at in Hc. destruct (b !! i) as [cs|] eqn:Hcs; [|done]. simpl in Hc.
  destruct (Forall2_lookup_r _ _ _ i cs Hrows1 Hcs) as (r & Hr & Hrcs).
  assert (Hr_new : r ∉ dom h).
  { apply (Hnew rs1 r Hl1'). apply list_elem_of_lookup. eauto. }
  assert (Hrl1 : r ≠ l1) by (intros ->; congruence).
  set (h2 := <[r := Heap.Row (<[j := v]> cs)]> h1).
  assert (Hsame2 : ∀ k, k ∈ dom h → h2 !! k = h !! k).
  { intros k Hk. unfold h2. rewrite lookup_insert_ne by (by intros ->). by apply Hsame. }
  exists h2, l1, (set_cell b i j v). split_and!.
  - unfold Heap.result. rewrite (heap_read_board h l b Hb). simpl.
    rewrite bool_decide_eq_false_2 by (by intros ?).
    rewrite Hcopy. simpl. unfold Heap.read_rows. rewrite Hl1'. simpl.
    fold i. rewrite Hr. simpl. unfold Heap.read_row. rewrite Hrcs. simpl. done.
  - by apply result_legal.
  - exists rs1. split_and!; [|done|].
    + unfold h2. by rewrite lookup_insert_ne.
    + apply Forall2_same_length_lookup. split.
      { unfold set_cell. rewrite length_alter. by eapply Forall2_length. }
      intros k x y Hx Hy. unfold set_cell in Hy. rewrite list_lookup_alter in Hy.
      unfold h2. case_decide as Hk.
      * subst k. rewrite Hcs in Hy. rewrite Hr in Hx. simplify_eq/=.
        apply lookup_insert_eq.
      * rewrite lookup_insert_ne.
        { exact (Forall2_lookup_lr _ _ _ _ _ _ Hrows1 Hx Hy). }
        intros <-. apply Hk. by eapply NoDup_lookup.
  - apply (cell_at_set_cell_eq b i j None). unfold cell_at. by rewrite Hcs.
  - intros i' j' Hne. by apply cell_at_set_cell_ne.
  - done.
  - done.
  - destruct Hb as (rs & Hl & Hnd & Hrows). exists rs. split_and!; [|done|].
    + rewrite Hsame2; [done|]. by eapply elem_of_dom_2.
    + eapply Forall2_impl; [done|]. intros x csx Hx. simpl in Hx.
      rewrite Hsame2; [done|]. by eapply elem_of_dom_2.
Qed.

Lemma result_new_board_witness :
  Heap.board_at Heap.block_heap 0%nat block_board ∧
  wf_board block_board ∧
  fresh_result Heap.block_heap 0%nat block_board (0, 2).
Proof.
  assert (Hb : Heap.board_at Heap.block_heap 0%nat block_board).
  { exists [1; 2; 3]%nat. split; [reflexivity|]. split.
    - apply (bool_decide_unpack _). exact I.
    - repeat constructor. }
  assert (Hwf : wf_board block_board) by (split; [reflexivity|by repeat constructor]).
  split; [exact Hb|]. split; [exact Hwf|].
  apply (result_new_board Heap.block_heap 0%nat block_board (0, 2) Hb Hwf).
  - unfold in_range. simpl. lia.
  - reflexivity.
Defined.

(** * Further properties of the board model *)

(** ** [winner] and the eight lines *)

Lemma three_true (a b c : cell) :
  three a b c = true ↔ ∃ s, a = Some s ∧ b = Some s ∧ c = Some s.
Proof.
  unfold three. rewrite !andb_true_iff, !bool_decide_eq_true. split.
  - intros [[-> ->] Hc]. destruct c as [s|]; [by exists s|done].
  - intros (s & -> & -> & ->). done.
Qed.

Lemma winner_scan (b : board) : wf_board b → winner b = first_won (triples b).
Proof.
  intros (c00&c01&c02&c10&c11&c12&c20&c21&c22&->)%wf_board_inv.
  unfold winner, triples. cbn -[three].
  repeat (destruct (three _ _ _); cbn -[three]; [reflexivity|]).
  reflexivity.
Qed.

Lemma first_won_Some (ts : list (cell * cell * cell)) (s : symbol) :
  first_won ts = Some s → (Some s, Some s, Some s) ∈ ts.
Proof.
  induction ts as [|[[a b] c] ts IH]; [done|]. simpl.
  destruct (three a b c) eqn:H3.
  - apply three_true in H3 as (s' & -> & -> & ->). intros [= ->]. apply list_elem_of_here.
  - intros Hw. by apply list_elem_of_further, IH.
Qed.

Lemma first_won_None (ts : list (cell * cell * cell)) :
  first_won ts = None ↔ ∀ s, (Some s, Some s, Some s) ∉ ts.
Proof.
  induction ts as [|[[a b] c] ts IH]; simpl.
  { split; [|done]. intros _ s. apply not_elem_of_nil. }
  destruct (three a b c) eqn:H3.
  - apply three_true in H3 as (s & -> & -> & ->). split; [done|].
    intros Hno. destruct (Hno s). apply list_elem_of_here.
  - rewrite IH. split.
    + intros Hno s [Heq|Hin]%elem_of_cons; [|by apply (Hno s)].
      injection Heq as <- <- <-.
      assert (three (Some s) (Some s) (Some s) = true) by (apply three_true; eauto).
      congruence.
    + intros Hno s Hin. apply (Hno s). by apply list_elem_of_further.
Qed.

Lemma triple_line (b : board) (s : symbol) :
  wf_board b →
  (Some s, Some s, Some s) ∈ triples b ↔ ∃ ln, ln ∈ lines ∧ line_of s b ln.
Proof.
  intros (c00&c01&c02&c10&c11&c12&c20&c21&c22&->)%wf_board_inv.
  unfold triples. rewrite list_elem_of_fmap. unfold line_of. split.
  - intros (ln & Heq & Hln). exists ln. split; [done|].
    unfold lines in Hln.
    repeat (apply elem_of_cons in Hln as [->|Hln]);
      [..|by apply elem_of_nil in Hln];
      cbn in Heq; injection Heq as <- <- <-; by repeat constructor.
  - intros (ln & Hln & Hall). exists ln. split; [|done].
    unfold lines in Hln.
    repeat (apply elem_of_cons in Hln as [->|Hln]);
      [..|by apply elem_of_nil in Hln];
      apply Forall_cons in Hall as [H1 Hall];
      apply Forall_cons in Hall as [H2 Hall];
      apply Forall_cons in Hall as [H3 _];
      cbn in H1, H2, H3; cbn; congruence.
Qed.

Lemma winner_Some_line (b : board) (s : symbol) :
  wf_board b → winner b = Some s → ∃ ln, ln ∈ lines ∧ line_of s b ln.
Proof.
  intros Hwf. rewrite winner_scan by done.
  intros Hs%first_won_Some. by apply triple_line.
Qed.

Lemma winner_None_lines (b : board) :
  wf_board b →
  winner b = None ↔ ¬ ∃ s ln, ln ∈ lines ∧ line_of s b ln.
Proof.
  intros Hwf. rewrite winner_scan, first_won_None by done. split.
  - intros Hno (s & ln & Hln & Hall). apply (Hno s), triple_line; eauto.
  - intros Hno s (ln & Hln & Hall)%triple_line; [|done]. apply Hno. eauto.
Qed.

(** X1: [winner] returns a symbol only if one of the eight lines holds
    three of that symbol, and returns [None] exactly when no line holds
    three equal symbols. *)
Theorem winner_lines (b : board) :
  wf_board b →
  (∀ s, winner b = Some s → ∃ ln, ln ∈ lines ∧ line_of s b ln) ∧
  (winner b = None ↔ ¬ ∃ s ln, ln ∈ lines ∧ line_of s b ln).
Proof.
  intros Hwf. split.
  - intros s Hs. by apply winner_Some_line.
  - by apply winner_None_lines.
Qed.

Lemma winner_lines_witness :
  wf_board block_board ∧
  (winner block_board = None ↔
   ¬ ∃ s ln, ln ∈ lines ∧ line_of s block_board ln).
Proof.
  assert (Hwf : wf_board block_board) by (split; [reflexivity|by repeat constructor]).
  split; [exact Hwf|]. exact (proj2 (winner_lines block_board Hwf)).
Defined.

(** ** What a move changes *)

Lemma result_cells (b b' : board) (a : action) :
  result b a = Ret b' →
  ∃ i j, a = (Z.of_nat i, Z.of_nat j) ∧ (i < 3)%nat ∧ (j < 3)%nat ∧
         cell_at b i j = Some None ∧
         cell_at b' i j = Some (Some (player b)) ∧
         ∀ i' j', (i', j') ≠ (i, j) → cell_at b' i' j' = cell_at b i' j'.
Proof.
  intros [Ha ->]%result_Ret.
  apply elem_of_actions in Ha as (i & j & Hi & Hj & -> & Hc).
  simpl. rewrite !Nat2Z.id. exists i, j. split_and!; [done..| |].
  - by eapply cell_at_set_cell_eq.
  - intros i' j' Hne. by apply cell_at_set_cell_ne.
Qed.

(** X2: a move can complete a line only for the player who makes it: if
    the board has no winner, then after [result] the winner is [None] or
    the player who moved. *)
Theorem result_winner (b b' : board) (a : action) :
  wf_board b → winner b = None → result b a = Ret b' →
  winner b' = None ∨ winner b' = Some (player b).
Proof.
  intros Hwf Hnone Hres.
  pose proof (result_wf _ _ _ Hwf Hres) as Hwf'.
  destruct (winner b') as [s|] eqn:Hw; [right|by left].
  destruct (winner_Some_line b' s Hwf' Hw) as (ln & Hln & Hall).
  destruct (result_cells _ _ _ Hres) as (i & j & _ & _ & _ & _ & Hnew & Hold).
  destruct (decide ((i, j) ∈ ln)) as [Hin|Hout].
  - unfold line_of in Hall. rewrite Forall_forall in Hall.
    specialize (Hall _ Hin). simpl in Hall. congruence.
  - exfalso. apply (proj1 (winner_None_lines b Hwf) Hnone).
    exists s, ln. split; [done|]. unfold line_of in *.
    rewrite Forall_forall in Hall |- *. intros [i' j'] Hp.
    specialize (Hall _ Hp). simpl in *. rewrite <- Hold; [done|].
    intros [= -> ->]. done.
Qed.

Lemma result_winner_witness :
  wf_board block_board ∧ winner block_board = None ∧
  (∃ b', result block_board (0, 2) = Ret b' ∧
         (winner b' = None ∨ winner b' = Some (player block_board))).
Proof.
  assert (Hwf : wf_board block_board) by (split; [reflexivity|by repeat constructor]).
  split; [exact Hwf|]. split; [reflexivity|].
  eexists. split; [reflexivity|].
  exact (result_winner block_board _ (0, 2) Hwf eq_refl eq_refl).
Defined.

Lemma result_actions_mem (b b' : board) (a : action) :
  result b a = Ret b' →
  ∀ x, x ∈ actions b' ↔ x ∈ actions b ∧ x ≠ a.
Proof.
  intros Hres.
  destruct (result_cells _ _ _ Hres) as (i & j & -> & Hi & Hj & Hc & Hnew & Hold).
  intros x. rewrite !elem_of_actions. split.
  - intros (i' & j' & Hi' & Hj' & -> & Hc').
    destruct (decide ((i', j') = (i, j))) as [[= -> ->]|Hne]; [congruence|].
    split.
    + exists i', j'. split_and!; [done..|]. by rewrite <- Hold.
    + intros [= Hx Hy]. apply Nat2Z.inj in Hx, Hy. by subst.
  - intros [(i' & j' & Hi' & Hj' & -> & Hc') Hne].
    exists i', j'. split_and!; [done..|]. rewrite Hold; [done|].
    intros [= -> ->]. done.
Qed.

Lemma result_actions_length (b b' : board) (a : action) :
  result b a = Ret b' → S (length (actions b')) = length (actions b).
Proof.
  intros Hres. pose proof (result_actions_mem _ _ _ Hres) as Hmem.
  apply result_Ret in Hres as [Ha _].
  assert (Hperm : actions b ≡ₚ a :: actions b').
  { apply NoDup_Permutation; [apply NoDup_actions| |].
    - constructor; [|apply NoDup_actions]. rewrite Hmem. by intros [_ ?].
    - intros x. rewrite elem_of_cons, Hmem.
      destruct (decide (x = a)) as [->|]; [|tauto]. tauto. }
  by rewrite Hperm.
Qed.

(** X3: after [result(board, a)] the legal actions are those of [board]
    without [a]: one fewer, and applying [a] again raises. *)
Theorem result_actions (b b' : board) (a : action) :
  wf_board b → result b a = Ret b' →
  (∀ x, x ∈ actions b' ↔ x ∈ actions b ∧ x ≠ a) ∧
  S (length (actions b')) = length (actions b) ∧
  result b' a = Raise invalid_action.
Proof.
  intros _ Hres. split_and!.
  - by apply result_actions_mem.
  - by apply (result_actions_length b b' a).
  - apply result_Raise. split; [|done].
    rewrite (result_actions_mem _ _ _ Hres). by intros [_ ?].
Qed.

Lemma result_actions_witness :
  wf_board block_board ∧
  ∃ b', result block_board (0, 2) = Ret b' ∧
        S (length (actions b')) = length (actions block_board) ∧
        result b' (0, 2) = Raise invalid_action.
Proof.
  assert (Hwf : wf_board block_board) by (split; [reflexivity|by repeat constructor]).
  split; [exact Hwf|]. eexists. split; [reflexivity|].
  exact (proj2 (result_actions block_board _ (0, 2) Hwf eq_refl)).
Defined.

(** X4: in alternating play the turn changes with every move: when the X
    count equals the O count or exceeds it by one, [player] after [result]
    is the other player. *)
Theorem result_player (b b' : board) (a : action) :
  wf_board b →
  count_symbol X b = count_symbol O b ∨ count_symbol X b = S (count_symbol O b) →
  result b a = Ret b' →
  player b' = other (player b).
Proof.
  intros _ Hcount Hres.
  assert (∃ d, to_move d b) as [d Hd].
  { destruct Hcount; [by exists Max|by exists Min]. }
  pose proof (to_move_result d _ _ _ Hd Hres) as Hd'.
  apply to_move_player in Hd, Hd'.
  destruct d; simpl in Hd'; repeat case_bool_decide; try done;
    destruct (player b), (player b'); done.
Qed.

Lemma result_player_witness :
  wf_board block_board ∧
  count_symbol X block_board = S (count_symbol O block_board) ∧
  ∃ b', result block_board (0, 2) = Ret b' ∧ player b' = X.
Proof.
  assert (Hwf : wf_board block_board) by (split; [reflexivity|by repeat constructor]).
  split; [exact Hwf|]. split; [reflexivity|]. eexists. split; [reflexivity|].
  exact (result_player block_board _ (0, 2) Hwf (or_intror eq_refl) eq_refl).
Defined.

(** ** Boards reached from the empty board *)

Lemma for_each_snoc {A S : Type} (xs : list A) (x : A) (s : S)
    (body : S → A → outcome S) :
  for_each (xs ++ [x]) s body = s' ← for_each xs s body; body s' x.
Proof.
  revert s. induction xs as [|y xs IH]; intros s; simpl.
  - by destruct (body s x).
  - destruct (body s y) as [s'| |]; simpl; [apply IH|done..].
Qed.

Lemma div2_spec (n q r : nat) :
  (r < 2)%nat → n = (2 * q + r)%nat → (n / 2)%nat = q.
Proof. intros Hr Hn. symmetry. by eapply Nat.div_unique. Qed.

(** X5: every board reached from the empty board by a sequence of [result]
    calls is 3x3, holds as many symbols as moves were made, with X one
    ahead after an odd number of moves and level after an even number, and
    has one legal action fewer per move. *)
Theorem reachable_counts (moves : list action) (b : board) :
  for_each moves empty_board result = Ret b →
  wf_board b ∧
  count_symbol X b = ((length moves + 1) / 2)%nat ∧
  count_symbol O b = (length moves / 2)%nat ∧
  (length (actions b) + length moves = 9)%nat ∧
  player b = (if Nat.even (length moves) then X else O).
Proof.
  revert b. induction moves as [|a moves IH] using rev_ind; intros b.
  { intros [= <-]. split; [apply wf_empty_board|]. by vm_compute. }
  rewrite for_each_snoc.
  destruct (for_each moves empty_board result) as [b0| |] eqn:Hrun; [|done..].
  cbn [mbind outcome_bind]. intros Hres.
  destruct (IH b0 eq_refl) as (Hwf & HX & HO & Hlen & Hp).
  pose proof (result_actions_length _ _ _ Hres) as Hact.
  destruct (result_cells _ _ _ Hres) as (i & j & -> & _ & _ & Hc & _ & _).
  apply result_Ret in Hres as [_ ->]. cbn [fst snd] in *. rewrite !Nat2Z.id in *.
  rewrite length_app. cbn [length].
  assert (Hsplit : (length moves + 1 = S (length moves))%nat) by lia.
  rewrite Hsplit.
  split; [by apply wf_set_cell|].
  assert (HX' : count_symbol X (set_cell b0 i j (Some (player b0)))
                = (count_symbol X b0 + if decide (X = player b0) then 1 else 0)%nat)
    by (by apply count_symbol_set_cell).
  assert (HO' : count_symbol O (set_cell b0 i j (Some (player b0)))
                = (count_symbol O b0 + if decide (O = player b0) then 1 else 0)%nat)
    by (by apply count_symbol_set_cell).
  assert (Hp' : player (set_cell b0 i j (Some (player b0)))
                = if bool_decide (count_symbol X (set_cell b0 i j (Some (player b0)))
                                  ≤ count_symbol O (set_cell b0 i j (Some (player b0))))%nat
                  then X else O) by reflexivity.
  rewrite Hp', HX', HO', Hp, HX, HO. clear Hp' HX' HO'. rewrite Hp in Hact.
  rewrite Nat.even_succ, <- Nat.negb_even.
  destruct (Nat.even (length moves)) eqn:Hev; cbn [negb].
  - apply Nat.even_spec in Hev as [k Hk]. rewrite Hk in Hlen |- *.
    rewrite (div2_spec (2 * k + 1) k 1), (div2_spec (2 * k) k 0),
      (div2_spec (S (2 * k) + 1) (S k) 0), (div2_spec (S (2 * k)) k 1) by lia.
    rewrite (decide_True (P := X = X)), (decide_False (P := O = X)) by done.
    rewrite bool_decide_eq_false_2 by lia. split_and!; [lia..|done].
  - apply (f_equal negb) in Hev. rewrite Nat.negb_even in Hev. cbn [negb] in Hev.
    apply Nat.odd_spec in Hev as [k Hk]. rewrite Hk in Hlen |- *.
    rewrite (div2_spec (2 * k + 1 + 1) (S k) 0), (div2_spec (2 * k + 1) k 1),
      (div2_spec (S (2 * k + 1) + 1) (S k) 1), (div2_spec (S (2 * k + 1)) (S k) 0)
      by lia.
    rewrite (decide_False (P := X = O)), (decide_True (P := O = O)) by done.
    rewrite bool_decide_eq_true_2 by lia. split_and!; [lia..|done].
Qed.

Lemma reachable_counts_witness :
  for_each [(0, 0); (1, 0); (0, 1)] empty_board result = Ret block_board ∧
  count_symbol X block_board = 2%nat ∧ count_symbol O block_board = 1%nat.
Proof.
  assert (Hrun : for_each [(0, 0); (1, 0); (0, 1)] empty_board result
                 = Ret block_board) by reflexivity.
  split; [exact Hrun|].
  destruct (reachable_counts _ _ Hrun) as (_ & HX & HO & _).
  split; [exact HX|exact HO].
Defined.

(** * Further properties of the search *)

Lemma utility_range (b : board) : -1 ≤ utility b ≤ 1.
Proof. unfold utility. repeat case_bool_decide; lia. Qed.

Lemma search_value_range (o : list action → list action) (n : nat) :
  (∀ l, NoDup l → o l ≡ₚ l) →
  ∀ d b, wf_board b → (length (actions b) < n)%nat →
    ∃ v a, search o d b = Ret (Fin v, a) ∧ -1 ≤ v ≤ 1.
Proof.
  intros Hperm. induction n as [|n IH]; intros d b Hwf Hlen; [lia|].
  destruct (terminal b) eqn:Hterm.
  { rewrite search_terminal by done. eexists _, _. split; [done|apply utility_range]. }
  destruct (search_best o Hperm d b Hwf Hterm) as (v & a & Hs & Ha & Hv & _).
  exists v, (Some a). split; [done|].
  pose proof (result_legal b a Ha) as Hres.
  rewrite (value_after_result _ _ _ _ Hres) in Hv.
  destruct (IH (opponent d) _ (result_wf _ _ _ Hwf Hres)) as (v' & a' & Hs' & Hr).
  { apply result_fewer_actions in Hres. lia. }
  rewrite Hs' in Hv. by injection Hv as <-.
Qed.

(** X6: on every 3x3 board [max_value] and [min_value] return one of the
    integers -1, 0, 1 as value, never an infinity, whatever the order in
    which the set of actions is enumerated. *)
Theorem search_values (set_iter : list action → list action) (b : board) :
  (∀ l, NoDup l → set_iter l ≡ₚ l) →
  wf_board b →
  (∃ v a, max_value set_iter b = Ret (Fin v, a) ∧ -1 ≤ v ≤ 1) ∧
  (∃ v a, min_value set_iter b = Ret (Fin v, a) ∧ -1 ≤ v ≤ 1).
Proof.
  intros Hperm Hwf. split.
  - apply (search_value_range set_iter (S (length (actions b))) Hperm Max b Hwf). lia.
  - apply (search_value_range set_iter (S (length (actions b))) Hperm Min b Hwf). lia.
Qed.

Lemma search_values_witness :
  (∀ l : list action, NoDup l → id l ≡ₚ l) ∧
  wf_board block_board ∧
  (∃ v a, max_value id block_board = Ret (Fin v, a) ∧ -1 ≤ v ≤ 1).
Proof.
  assert (Hperm : ∀ l : list action, NoDup l → id l ≡ₚ l) by (intros l _; reflexivity).
  assert (Hwf : wf_board block_board) by (split; [reflexivity|by repeat constructor]).
  split; [exact Hperm|]. split; [exact Hwf|].
  exact (proj1 (search_values id block_board Hperm Hwf)).
Defined.

(** X7: the value that [max_value] and [min_value] compute for a board is
    the same for every order in which the set of actions is enumerated;
    only the action returned with it can differ. *)
Theorem search_value_independent (o1 o2 : list action → list action) (b : board) :
  (∀ l, NoDup l → o1 l ≡ₚ l) → (∀ l, NoDup l → o2 l ≡ₚ l) →
  wf_board b →
  value_of (max_value o1 b) = value_of (max_value o2 b) ∧
  value_of (min_value o1 b) = value_of (min_value o2 b).
Proof.
  intros H1 H2 Hwf. split.
  - apply (search_value_order o1 o2 H1 H2 (S (length (actions b))) Max b Hwf). lia.
  - apply (search_value_order o1 o2 H1 H2 (S (length (actions b))) Min b Hwf). lia.
Qed.

Lemma search_value_independent_witness :
  (∀ l : list action, NoDup l → id l ≡ₚ l) ∧
  (∀ l : list action, NoDup l → hash_order l ≡ₚ l) ∧
  wf_board block_board ∧
  value_of (min_value id block_board) = value_of (min_value hash_order block_board).
Proof.
  assert (Hperm : ∀ l : list action, NoDup l → id l ≡ₚ l) by (intros l _; reflexivity).
  assert (Hwf : wf_board block_board) by (split; [reflexivity|by repeat constructor]).
  split; [exact Hperm|]. split; [exact hash_order_perm|]. split; [exact Hwf|].
  exact (proj2 (search_value_independent id hash_order block_board
                  Hperm hash_order_perm Hwf)).
Defined.

(** * The game object *)

(** ** [make_move] *)

Lemma make_move_cell (b : board) (i j : nat) :
  wf_board b → (i < 3)%nat → (j < 3)%nat →
  make_move b (Z.of_nat i) (Z.of_nat j) =
  match cell_at b i j with
  | Some None => Ret (true, set_cell b i j (Some (player b)))
  | _ => Ret (false, b)
  end.
Proof.
  intros (c00&c01&c02&c10&c11&c12&c20&c21&c22&->)%wf_board_inv Hi Hj.
  unfold make_move. generalize (player [[c00; c01; c02]; [c10; c11; c12]; [c20; c21; c22]]).
  intros p.
  destruct i as [|[|[|]]]; [| | |lia]; destruct j as [|[|[|]]]; try lia;
    cbn;
    match goal with
    | |- context [match ?c with _ => _ end] => is_var c; destruct c as [[]|]
    end; reflexivity.
Qed.

(** X8: for an action of [actions(board)], [make_move] returns [True] and
    leaves in [self.board] the board that [result] returns. *)
Theorem make_move_result (b : board) (a : action) :
  wf_board b → a ∈ actions b →
  ∃ b', result b a = Ret b' ∧ make_move b a.1 a.2 = Ret (true, b').
Proof.
  intros Hwf Ha. eexists. split; [by apply result_legal|].
  apply elem_of_actions in Ha as (i & j & Hi & Hj & -> & Hc).
  simpl. rewrite make_move_cell, Hc, !Nat2Z.id by done. done.
Qed.

Lemma make_move_result_witness :
  wf_board block_board ∧ (0, 2) ∈ actions block_board ∧
  ∃ b', result block_board (0, 2) = Ret b' ∧
        make_move block_board 0 2 = Ret (true, b').
Proof.
  assert (Hwf : wf_board block_board) by (split; [reflexivity|by repeat constructor]).
  assert (Ha : (0, 2) ∈ actions block_board) by (apply (bool_decide_unpack _); exact I).
  split; [exact Hwf|]. split; [exact Ha|].
  exact (make_move_result block_board (0, 2) Hwf Ha).
Defined.

Lemma getitem_out {A : Type} (l : list A) (i : Z) :
  ¬ (- Z.of_nat (length l) ≤ i < Z.of_nat (length l)) →
  getitem l i = Raise index_error.
Proof.
  intros Hout. unfold getitem, py_index.
  by rewrite !bool_decide_eq_false_2 by lia.
Qed.

Lemma getitem_in {A : Type} (l : list A) (i : Z) :
  - Z.of_nat (length l) ≤ i < Z.of_nat (length l) →
  ∃ x, getitem l i = Ret x ∧ x ∈ l.
Proof.
  intros Hin. unfold getitem, py_index. case_bool_decide.
  - destruct (lookup_lt_is_Some_2 l (Z.to_nat i)) as [x Hx]; [lia|].
    exists x. simpl. rewrite Hx. split; [done|]. by eapply list_elem_of_lookup_2.
  - rewrite bool_decide_eq_true_2 by lia.
    destruct (lookup_lt_is_Some_2 l (Z.to_nat (Z.of_nat (length l) + i)))
      as [x Hx]; [lia|].
    exists x. simpl. rewrite Hx. split; [done|]. by eapply list_elem_of_lookup_2.
Qed.

Lemma wrap_cases (x : Z) :
  -3 ≤ x ≤ 2 → x = -3 ∨ x = -2 ∨ x = -1 ∨ x = 0 ∨ x = 1 ∨ x = 2.
Proof. lia. Qed.

Lemma make_move_wrap (b : board) (row col : Z) :
  wf_board b → -3 ≤ row ≤ 2 → -3 ≤ col ≤ 2 →
  make_move b row col = make_move b (row `mod` 3) (col `mod` 3).
Proof.
  intros Hwf Hr Hc.
  apply wf_board_inv in Hwf as (c00&c01&c02&c10&c11&c12&c20&c21&c22&->).
  apply wrap_cases in Hr, Hc.
  destruct Hr as [-> | [-> | [-> | [-> | [-> | ->]]]]];
    destruct Hc as [-> | [-> | [-> | [-> | [-> | ->]]]]]; reflexivity.
Qed.

Lemma make_move_out (b : board) (row col : Z) :
  wf_board b → ¬ (-3 ≤ row ≤ 2 ∧ -3 ≤ col ≤ 2) →
  make_move b row col = Raise index_error.
Proof.
  intros [Hlen Hrows] Hout. unfold make_move.
  destruct (decide (-3 ≤ row ≤ 2)) as [Hr|Hr].
  - destruct (getitem_in b row) as (r & -> & Hin); [lia|]. simpl.
    rewrite Forall_forall in Hrows. specialize (Hrows r Hin). simpl in Hrows.
    rewrite getitem_out by lia. done.
  - rewrite getitem_out by lia. done.
Qed.

(** X9: [make_move] accepts indices from -3 to 2, a negative index counting
    from the end as Python lists do, so [make_move(-1, -1)] plays the cell
    (2,2); any other index raises [IndexError].  ([result] raises "Invalid
    action" for every negative index.) *)
Theorem make_move_indices (b : board) (row col : Z) :
  wf_board b →
  (-3 ≤ row ≤ 2 → -3 ≤ col ≤ 2 →
   make_move b row col = make_move b (row `mod` 3) (col `mod` 3) ∧
   make_move b row col ≠ Raise index_error) ∧
  (¬ (-3 ≤ row ≤ 2 ∧ -3 ≤ col ≤ 2) → make_move b row col = Raise index_error) ∧
  (row < 0 ∨ col < 0 → result b (row, col) = Raise invalid_action).
Proof.
  intros Hwf. split_and!.
  - intros Hr Hc. split; [by apply make_move_wrap|].
    rewrite make_move_wrap by done.
    pose proof (Z.mod_pos_bound row 3). pose proof (Z.mod_pos_bound col 3).
    rewrite <- (Z2Nat.id (row `mod` 3)), <- (Z2Nat.id (col `mod` 3)) by lia.
    rewrite make_move_cell by (done || lia).
    by destruct (cell_at b _ _) as [[|]|].
  - by apply make_move_out.
  - intros Hneg. apply result_Raise. split; [|done].
    intros (i & j & _ & _ & [= -> ->] & _)%elem_of_actions. lia.
Qed.

Lemma make_move_indices_witness :
  wf_board block_board ∧
  make_move block_board (-1) (-1) = make_move block_board 2 2 ∧
  make_move block_board (-1) (-1)
  = Ret (true, [[Some X; Some X; None]; [Some O; None; None];
                [None; None; Some O]]) ∧
  make_move block_board 3 0 = Raise index_error ∧
  result block_board (-1, -1) = Raise invalid_action.
Proof.
  assert (Hwf : wf_board block_board) by (split; [reflexivity|by repeat constructor]).
  destruct (make_move_indices block_board (-1) (-1) Hwf) as (Hin & _ & Hres).
  destruct (make_move_indices block_board 3 0 Hwf) as (_ & Hout & _).
  split; [exact Hwf|].
  split; [exact (proj1 (Hin ltac:(lia) ltac:(lia)))|].
  split; [reflexivity|].
  split; [apply Hout; lia|apply Hres; lia].
Defined.

(** X10: [make_move] never overwrites a symbol.  When it returns, the board
    is still 3x3 and every cell that held a symbol holds the same symbol;
    it returns [False] exactly when it leaves the board as it was, and
    [True] when it has put the current player's symbol into one empty
    cell. *)
Theorem make_move_keeps_symbols (b b' : board) (row col : Z) (ok : bool) :
  wf_board b → make_move b row col = Ret (ok, b') →
  wf_board b' ∧
  (∀ i j s, cell_at b i j = Some (Some s) → cell_at b' i j = Some (Some s)) ∧
  (ok = false → b' = b) ∧
  (ok = true →
   ∃ i j, cell_at b i j = Some None ∧ b' = set_cell b i j (Some (player b))).
Proof.
  intros Hwf Hmove.
  destruct (decide (-3 ≤ row ≤ 2 ∧ -3 ≤ col ≤ 2)) as [[Hr Hc]|Hout];
    [|by rewrite (make_move_out b row col Hwf Hout) in Hmove].
  rewrite (make_move_wrap b row col Hwf Hr Hc) in Hmove.
  pose proof (Z.mod_pos_bound row 3). pose proof (Z.mod_pos_bound col 3).
  rewrite <- (Z2Nat.id (row `mod` 3)), <- (Z2Nat.id (col `mod` 3)) in Hmove by lia.
  rewrite make_move_cell in Hmove by (done || lia).
  set (i := Z.to_nat (row `mod` 3)) in *. set (j := Z.to_nat (col `mod` 3)) in *.
  destruct (cell_at b i j) as [[s0|]|] eqn:Hc0; injection Hmove as <- <-.
  - split_and!; [done|done|done|done].
  - split_and!; [by apply wf_set_cell| |done|by exists i, j].
    intros i' j' s Hs. rewrite cell_at_set_cell_ne; [done|].
    intros [= -> ->]. congruence.
  - split_and!; [done|done|done|done].
Qed.

Lemma make_move_keeps_symbols_witness :
  wf_board block_board ∧
  make_move block_board 0 0 = Ret (false, block_board) ∧
  cell_at block_board 0 0 = Some (Some X).
Proof.
  assert (Hwf : wf_board block_board) by (split; [reflexivity|by repeat constructor]).
  assert (Hm : make_move block_board 0 0 = Ret (false, block_board)) by reflexivity.
  destruct (make_move_keeps_symbols block_board block_board 0 0 false Hwf Hm)
    as (_ & Hkeep & _).
  split; [exact Hwf|]. split; [exact Hm|].
  exact (Hkeep 0%nat 0%nat X eq_refl).
Defined.

(** ** [make_move] and [__init__] on objects *)

Lemma getitem_nat {A : Type} (l : list A) (i : nat) (x : A) :
  l !! i = Some x →
  py_index l (Z.of_nat i) = Some i ∧ getitem l (Z.of_nat i) = Ret x.
Proof.
  intros Hx. pose proof (lookup_lt_Some _ _ _ Hx).
  assert (Hidx : py_index l (Z.of_nat i) = Some i).
  { unfold py_index. rewrite bool_decide_eq_true_2 by lia. by rewrite Nat2Z.id. }
  split; [done|]. unfold getitem. rewrite Hidx. simpl. by rewrite Hx.
Qed.

(** X11: on objects, [make_move] with a legal action updates the row of
    [self.board] in place: it allocates nothing, and the same reference
    then holds the board that [result] would return as a new object. *)
Theorem make_move_in_place (h : Heap.heap) (l : Heap.loc) (b : board) (a : action) :
  Heap.board_at h l b → wf_board b → a ∈ actions b →
  ∃ h' b',
    heap_make_move h l a.1 a.2 = Ret (true, h') ∧
    result b a = Ret b' ∧
    Heap.board_at h' l b' ∧
    dom h' = dom h.
Proof.
  intros Hb Hwf Ha.
  pose proof (result_legal b a Ha) as Hres.
  apply elem_of_actions in Ha as (i & j & Hi & Hj & -> & Hc).
  cbn [fst snd] in *. rewrite !Nat2Z.id in Hres.
  set (v := Some (player b)) in *.
  pose proof Hb as (rs & Hl & Hnd & Hrows).
  unfold cell_at in Hc. destruct (b !! i) as [cs|] eqn:Hcs; [|done]. simpl in Hc.
  destruct (Forall2_lookup_r _ _ _ i cs Hrows Hcs) as (r & Hr & Hrcs).
  destruct (getitem_nat rs i r Hr) as [_ Hgr].
  destruct (getitem_nat cs j None Hc) as [Hpj Hgc].
  assert (Hrl : r ≠ l) by (intros ->; congruence).
  exists (<[r := Heap.Row (<[j := v]> cs)]> h), (set_cell b i j v).
  split_and!.
  - unfold heap_make_move. rewrite (heap_read_board h l b Hb). simpl.
    unfold Heap.read_rows. rewrite Hl. simpl. rewrite Hgr. simpl.
    unfold Heap.read_row. rewrite Hrcs. simpl. rewrite Hgc. simpl.
    by rewrite Hpj.
  - done.
  - exists rs. split_and!; [by rewrite lookup_insert_ne|done|].
    apply Forall2_same_length_lookup. split.
    { unfold set_cell. rewrite length_alter. by eapply Forall2_length. }
    intros k x y Hx Hy. unfold set_cell in Hy. rewrite list_lookup_alter in Hy.
    case_decide as Hk.
    + subst k. rewrite Hcs in Hy. rewrite Hr in Hx. simplify_eq/=.
      apply lookup_insert_eq.
    + rewrite lookup_insert_ne.
      { exact (Forall2_lookup_lr _ _ _ _ _ _ Hrows Hx Hy). }
      intros <-. apply Hk. by eapply NoDup_lookup.
  - rewrite dom_insert_L. apply subseteq_union_1_L, singleton_subseteq_l.
    by eapply elem_of_dom_2.
Qed.

Lemma make_move_in_place_witness :
  Heap.board_at Heap.block_heap 0%nat block_board ∧
  wf_board block_board ∧ (0, 2) ∈ actions block_board ∧
  ∃ h' b',
    heap_make_move Heap.block_heap 0%nat 0 2 = Ret (true, h') ∧
    result block_board (0, 2) = Ret b' ∧
    Heap.board_at h' 0%nat b' ∧
    dom h' = dom Heap.block_heap.
Proof.
  assert (Hb : Heap.board_at Heap.block_heap 0%nat block_board).
  { exists [1; 2; 3]%nat. split; [reflexivity|]. split.
    - apply (bool_decide_unpack _). exact I.
    - repeat constructor. }
  assert (Hwf : wf_board block_board) by (split; [reflexivity|by repeat constructor]).
  assert (Ha : (0, 2) ∈ actions block_board) by (apply (bool_decide_unpack _); exact I).
  split; [exact Hb|]. split; [exact Hwf|]. split; [exact Ha|].
  exact (make_move_in_place Heap.block_heap 0%nat block_board (0, 2) Hb Hwf Ha).
Defined.

(** X12: [__init__] builds the empty board from four new objects, three
    distinct rows and the list that holds them, and changes no object that
    existed before. *)
Theorem init_board (h : Heap.heap) :
  Heap.board_at (heap_init h).1 (heap_init h).2 empty_board ∧
  ((heap_init h).2 ∉ dom h) ∧
  (∀ k, k ∈ dom h → (heap_init h).1 !! k = h !! k) ∧
  size (heap_init h).1 = (size h + 4)%nat.
Proof.
  unfold heap_init, heap_new_rows. cbn [seq foldl app].
  set (r0 := fresh (dom h)).
  set (h0 := <[r0 := Heap.Row (replicate 3 None)]> h).
  set (r1 := fresh (dom h0)).
  set (h1 := <[r1 := Heap.Row (replicate 3 None)]> h0).
  set (r2 := fresh (dom h1)).
  set (h2 := <[r2 := Heap.Row (replicate 3 None)]> h1).
  set (l := fresh (dom h2)). cbn [fst snd].
  assert (H0 : r0 ∉ dom h) by apply is_fresh.
  assert (H1 : r1 ∉ dom h0) by apply is_fresh.
  assert (H2 : r2 ∉ dom h1) by apply is_fresh.
  assert (H3 : l ∉ dom h2) by apply is_fresh.
  assert (Hn0 : h !! r0 = None) by (by apply not_elem_of_dom).
  assert (Hn1 : h0 !! r1 = None) by (by apply not_elem_of_dom).
  assert (Hn2 : h1 !! r2 = None) by (by apply not_elem_of_dom).
  assert (Hn3 : h2 !! l = None) by (by apply not_elem_of_dom).
  assert (H10 : r1 ≠ r0).
  { intros Heq. rewrite Heq in Hn1. unfold h0 in Hn1. by rewrite lookup_insert_eq in Hn1. }
  assert (H21 : r2 ≠ r1).
  { intros Heq. rewrite Heq in Hn2. unfold h1 in Hn2. by rewrite lookup_insert_eq in Hn2. }
  assert (H20 : r2 ≠ r0).
  { intros Heq. rewrite Heq in Hn2. unfold h1, h0 in Hn2.
    rewrite lookup_insert_ne in Hn2 by done. by rewrite lookup_insert_eq in Hn2. }
  assert (H32 : l ≠ r2).
  { intros Heq. rewrite Heq in Hn3. unfold h2 in Hn3. by rewrite lookup_insert_eq in Hn3. }
  assert (H31 : l ≠ r1).
  { intros Heq. rewrite Heq in Hn3. unfold h2, h1 in Hn3.
    rewrite lookup_insert_ne in Hn3 by done. by rewrite lookup_insert_eq in Hn3. }
  assert (H30 : l ≠ r0).
  { intros Heq. rewrite Heq in Hn3. unfold h2, h1, h0 in Hn3.
    rewrite !lookup_insert_ne in Hn3 by done. by rewrite lookup_insert_eq in Hn3. }
  assert (Hold : ∀ k, k ∈ dom h → k ≠ r0 ∧ k ≠ r1 ∧ k ≠ r2 ∧ k ≠ l).
  { intros k [x Hk]%elem_of_dom. split_and!; intros ->.
    - congruence.
    - unfold h0 in Hn1. rewrite lookup_insert_ne in Hn1 by done. congruence.
    - unfold h1, h0 in Hn2. rewrite !lookup_insert_ne in Hn2 by done. congruence.
    - unfold h2, h1, h0 in Hn3. rewrite !lookup_insert_ne in Hn3 by done. congruence. }
  split_and!.
  - exists [r0; r1; r2]. split_and!.
    + apply lookup_insert_eq.
    + apply NoDup_cons. split.
      { rewrite !elem_of_cons, elem_of_nil. intros [?|[?|[]]]; congruence. }
      apply NoDup_cons. split.
      { rewrite !elem_of_cons, elem_of_nil. intros [?|[]]; congruence. }
      apply NoDup_singleton.
    + unfold empty_board, h2, h1, h0. repeat constructor.
      * rewrite !lookup_insert_ne by done. apply lookup_insert_eq.
      * rewrite !lookup_insert_ne by done. apply lookup_insert_eq.
      * rewrite !lookup_insert_ne by done. apply lookup_insert_eq.
  - intros Hl. by destruct (Hold l Hl) as (_ & _ & _ & ?).
  - intros k Hk. destruct (Hold k Hk) as (? & ? & ? & ?).
    unfold h2, h1, h0. by rewrite !lookup_insert_ne.
  - rewrite map_size_insert_None by done. unfold h2.
    rewrite map_size_insert_None by done. unfold h1.
    rewrite map_size_insert_None by done. unfold h0.
    rewrite map_size_insert_None by done. lia.
Qed.

(** ** [print_board] *)

Lemma show_cell_char (c : cell) : show_cell c = String (cell_char c) "".
Proof. by destruct c as [[]|]. Qed.

Lemma print_board_get (b : board) (i j : nat) :
  wf_board b → (i < 3)%nat → (j < 3)%nat →
  String.get (cell_position i j) (print_board b)
  = Some (cell_char (board_get b i j)).
Proof.
  intros (c00&c01&c02&c10&c11&c12&c20&c21&c22&->)%wf_board_inv Hi Hj.
  unfold print_board. cbn [foldr seq]. unfold board_get, cell_at. cbn [lookup list_lookup mbind option_bind default].
  rewrite !show_cell_char.
  destruct i as [|[|[|]]]; [| | |lia]; destruct j as [|[|[|]]]; try lia;
    by vm_compute.
Qed.

(** X13: the text of [print_board] shows every cell: the character at the
    cell's position is a blank, X or O according to the cell, the text is
    82 characters long, and two 3x3 boards with the same text are equal. *)
Theorem print_board_faithful (b1 b2 : board) :
  wf_board b1 → wf_board b2 →
  String.length (print_board b1) = 82%nat ∧
  (∀ i j, (i < 3)%nat → (j < 3)%nat →
     String.get (cell_position i j) (print_board b1)
     = Some (cell_char (board_get b1 i j))) ∧
  (print_board b1 = print_board b2 → b1 = b2).
Proof.
  intros Hwf1 Hwf2. split_and!.
  - apply wf_board_inv in Hwf1 as (c00&c01&c02&c10&c11&c12&c20&c21&c22&->).
    unfold print_board. cbn [foldr seq]. unfold board_get, cell_at.
    cbn [lookup list_lookup mbind option_bind default].
    rewrite !show_cell_char. by vm_compute.
  - intros i j Hi Hj. by apply print_board_get.
  - intros Heq.
    assert (Hcells : ∀ i j, (i < 3)%nat → (j < 3)%nat →
                            board_get b1 i j = board_get b2 i j).
    { intros i j Hi Hj.
      pose proof (print_board_get b1 i j Hwf1 Hi Hj) as H1.
      pose proof (print_board_get b2 i j Hwf2 Hi Hj) as H2.
      rewrite Heq, H2 in H1. injection H1 as H1.
      by destruct (board_get b1 i j) as [[]|], (board_get b2 i j) as [[]|]. }
    apply wf_board_inv in Hwf1 as (c00&c01&c02&c10&c11&c12&c20&c21&c22&->).
    apply wf_board_inv in Hwf2 as (d00&d01&d02&d10&d11&d12&d20&d21&d22&->).
    pose proof (Hcells 0 0 ltac:(lia) ltac:(lia))%nat as H00.
    pose proof (Hcells 0 1 ltac:(lia) ltac:(lia))%nat as H01.
    pose proof (Hcells 0 2 ltac:(lia) ltac:(lia))%nat as H02.
    pose proof (Hcells 1 0 ltac:(lia) ltac:(lia))%nat as H10.
    pose proof (Hcells 1 1 ltac:(lia) ltac:(lia))%nat as H11.
    pose proof (Hcells 1 2 ltac:(lia) ltac:(lia))%nat as H12.
    pose proof (Hcells 2 0 ltac:(lia) ltac:(lia))%nat as H20.
    pose proof (Hcells 2 1 ltac:(lia) ltac:(lia))%nat as H21.
    pose proof (Hcells 2 2 ltac:(lia) ltac:(lia))%nat as H22.
    cbn in *. by subst.
Qed.

Lemma print_board_faithful_witness :
  wf_board block_board ∧ wf_board empty_board ∧
  String.length (print_board block_board) = 82%nat ∧
  String.get (cell_position 1 0) (print_board block_board) = Some "O"%char.
Proof.
  assert (Hwf : wf_board block_board) by (split; [reflexivity|by repeat constructor]).
  assert (Hwf0 : wf_board empty_board) by (split; [reflexivity|by repeat constructor]).
  destruct (print_board_faithful block_board empty_board Hwf Hwf0) as (Hlen & Hget & _).
  split; [exact Hwf|]. split; [exact Hwf0|]. split; [exact Hlen|].
  exact (Hget 1%nat 0%nat ltac:(lia) ltac:(lia)).
Defined.

(** ** [play_game] *)

Lemma make_move_action (b : board) (a : action) :
  wf_board b → a ∈ actions b →
  ∃ b', result b a = Ret b' ∧ make_move b a.1 a.2 = Ret (true, b').
Proof.
  intros Hwf Ha. eexists. split; [by apply result_legal|].
  apply elem_of_actions in Ha as (i & j & Hi & Hj & -> & Hc).
  simpl. rewrite make_move_cell, Hc, !Nat2Z.id by done. done.
Qed.

Lemma empty_board_value (o : list action → list action) :
  (∀ l, NoDup l → o l ≡ₚ l) →
  value_of (search o Max empty_board) = Some 0.
Proof.
  intros Hperm. rewrite (search_value_id o Max) by (done || apply wf_empty_board).
  rewrite (search_ties_head id Max empty_board 0 id_perm wf_empty_board);
    [reflexivity|reflexivity|apply opening_values].
Qed.

Section ConsoleFacts.

Variable set_iter : list action → list action.
Variable split_words : string → list string.
Variable int_of_string : string → option Z.

Hypothesis set_iter_perm : ∀ l, NoDup l → set_iter l ≡ₚ l.

(** A line of input is either rejected, with a message and the board
    unchanged, or it names an empty cell, which X takes. *)
Lemma human_turn_cases (b : board) (line : string) :
  wf_board b →
  ∃ b' printed,
    human_turn split_words int_of_string b line = Ret (b', printed) ∧
    ((b' = b ∧ printed ≠ []) ∨
     (∃ a, a ∈ actions b ∧ result b a = Ret b' ∧ printed = [])).
Proof.
  intros Hwf. unfold human_turn.
  case_bool_decide; [by eexists _, _; split; [done|left]|].
  destruct (split_words line !! 0%nat ≫= int_of_string) as [row|];
    [|by eexists _, _; split; [done|left]].
  destruct (split_words line !! 1%nat ≫= int_of_string) as [col|];
    [|by eexists _, _; split; [done|left]].
  case_bool_decide as Hrange; [by eexists _, _; split; [done|left]|].
  assert (Hr : 0 ≤ row ≤ 2 ∧ 0 ≤ col ≤ 2) by lia. destruct Hr as [Hr Hc].
  rewrite <- (Z2Nat.id row), <- (Z2Nat.id col) by lia.
  rewrite make_move_cell by (done || lia).
  destruct (cell_at b (Z.to_nat row) (Z.to_nat col)) as [[s|]|] eqn:Hcell.
  - by eexists _, _; split; [done|left].
  - eexists _, _. split; [done|]. right.
    exists (Z.of_nat (Z.to_nat row), Z.of_nat (Z.to_nat col)).
    assert (Ha : (Z.of_nat (Z.to_nat row), Z.of_nat (Z.to_nat col)) ∈ actions b).
    { apply elem_of_actions. exists (Z.to_nat row), (Z.to_nat col).
      split_and!; [lia|lia|done|done]. }
    split_and!; [done| |done].
    rewrite (result_legal b _ Ha). simpl. by rewrite !Nat2Z.id.
  - by eexists _, _; split; [done|left].
Qed.

Lemma value_at_most_player (k : Z) (b : board) :
  value_at_most k set_iter b →
  ∃ v, to_move (if bool_decide (player b = X) then Max else Min) b ∧
       value_of (search set_iter (if bool_decide (player b = X) then Max else Min) b)
       = Some v ∧ v ≤ k.
Proof.
  intros (Hwf & d & v & Hd & Hv & Hle). exists v.
  by rewrite (to_move_player d b Hd).
Qed.

Lemma value_at_most_human (k : Z) (b b' : board) (a : action) :
  value_at_most k set_iter b → terminal b = false → player b = X →
  result b a = Ret b' → value_at_most k set_iter b'.
Proof.
  intros Hsafe Hterm Hp Hres. pose proof Hsafe as [Hwf _].
  destruct (value_at_most_player k b Hsafe) as (v & Hd & Hv & Hle).
  rewrite bool_decide_eq_true_2 in Hd, Hv by done.
  split; [by eapply result_wf|].
  destruct (search_best set_iter set_iter_perm Max b Hwf Hterm)
    as (v' & a' & Hs & _ & _ & Hall).
  rewrite Hs in Hv. injection Hv as ->.
  apply result_Ret in Hres as Hres'. destruct Hres' as [Ha _].
  destruct (Hall a Ha) as (z & Hz & Hzv). simpl in Hzv.
  exists Min, z. split_and!; [by apply (to_move_result Max b b' a)| |lia].
  by rewrite <- (value_after_result _ _ _ _ Hres).
Qed.

Lemma value_at_most_computer (k : Z) (b : board) :
  value_at_most k set_iter b → terminal b = false → player b ≠ X →
  ∃ a b', minimax set_iter b = Ret (Some a) ∧ a ∈ actions b ∧
          result b a = Ret b' ∧ value_at_most k set_iter b'.
Proof.
  intros Hsafe Hterm Hp. pose proof Hsafe as [Hwf _].
  destruct (value_at_most_player k b Hsafe) as (v & Hd & Hv & Hle).
  rewrite bool_decide_eq_false_2 in Hd, Hv by done.
  destruct (search_best set_iter set_iter_perm Min b Hwf Hterm)
    as (v' & a & Hs & Ha & Hva & _).
  rewrite Hs in Hv. injection Hv as ->.
  pose proof (result_legal b a Ha) as Hres.
  eexists a, _. split_and!; [|done|done|].
  - rewrite minimax_eq, Hterm, bool_decide_eq_false_2 by done. by rewrite Hs.
  - split; [by eapply result_wf|]. exists Max, v.
    split_and!; [by apply (to_move_result Min b _ a)| |done].
    by rewrite <- (value_after_result _ _ _ _ Hres).
Qed.

Lemma value_at_most_final (k : Z) (b : board) :
  value_at_most k set_iter b → terminal b = true → utility b ≤ k.
Proof.
  intros (Hwf & d & v & _ & Hv & Hle) Hterm.
  rewrite search_terminal in Hv by done. by injection Hv as <-.
Qed.

Lemma play_loop_S (n : nat) (b : board) (input out : list string) :
  play_loop set_iter split_words int_of_string (S n) b input out =
  if terminal b then Ret (b, out)
  else
    if bool_decide (player b = X) then
      match input with
      | [] => Raise eof_error
      | line :: input' =>
        '(b', printed) ← human_turn split_words int_of_string b line;
        play_loop set_iter split_words int_of_string n b' input'
          ((out ++ [print_board b]) ++ [prompt] ++ printed)
      end
    else
      action ← minimax set_iter b;
      match action with
      | Some a =>
        '(_, b') ← make_move b a.1 a.2;
        play_loop set_iter split_words int_of_string n b' input
          (((out ++ [print_board b]) ++ [msg_thinking]) ++ [msg_chose a])
      | None =>
        play_loop set_iter split_words int_of_string n b input
          ((out ++ [print_board b]) ++ [msg_thinking])
      end.
Proof.
  unfold play_loop at 1. fold (play_loop set_iter split_words int_of_string).
  destruct (terminal b); [done|]. case_bool_decide; [|done].
  destruct input as [|line input']; [done|].
  destruct (human_turn split_words int_of_string b line) as [[b' printed]| |]; [|done..].
  simpl. by rewrite <- !(assoc_L (++)).
Qed.

Lemma play_loop_value (k : Z) (n : nat) :
  ∀ b input out b' out',
    value_at_most k set_iter b →
    play_loop set_iter split_words int_of_string n b input out = Ret (b', out') →
    value_at_most k set_iter b' ∧ terminal b' = true.
Proof.
  induction n as [|n IH]; intros b input out b' out' Hsafe; [done|].
  rewrite play_loop_S. destruct (terminal b) eqn:Hterm.
  { by intros [= <- <-]. }
  pose proof Hsafe as [Hwf _]. case_bool_decide as Hp.
  - destruct input as [|line input']; [done|].
    destruct (human_turn_cases b line Hwf)
      as (b1 & printed & -> & [[-> _]|(a & Ha & Hres & _)]); simpl.
    + by apply IH.
    + apply IH. by eapply value_at_most_human.
  - destruct (value_at_most_computer k b Hsafe Hterm Hp)
      as (a & b1 & -> & Ha & Hres & Hsafe1).
    simpl. destruct (make_move_action b a Hwf Ha) as (b2 & Hres2 & ->).
    simpl. rewrite Hres in Hres2. injection Hres2 as <-. by apply IH.
Qed.

(** With more fuel than input lines and empty cells, the loop ends with a
    terminal board or, the input exhausted, with [EOFError]. *)
Lemma play_loop_ends (n : nat) :
  ∀ b input out,
    wf_board b → (length input + length (actions b) < n)%nat →
    (∃ b' out', play_loop set_iter split_words int_of_string n b input out
                = Ret (b', out') ∧ terminal b' = true)
    ∨ play_loop set_iter split_words int_of_string n b input out
      = Raise eof_error.
Proof.
  induction n as [|n IH]; intros b input out Hwf Hn; [lia|].
  rewrite play_loop_S. destruct (terminal b) eqn:Hterm.
  { left. by eexists _, _. }
  case_bool_decide as Hp.
  - destruct input as [|line input']; [by right|]. simpl in Hn.
    destruct (human_turn_cases b line Hwf)
      as (b1 & printed & -> & [[-> _]|(a & Ha & Hres & _)]); simpl.
    + apply IH; [done|lia].
    + apply IH; [by eapply result_wf|].
      apply result_fewer_actions in Hres. lia.
  - destruct (search_best set_iter set_iter_perm
                (if bool_decide (player b = X) then Max else Min) b Hwf Hterm)
      as (v & a & Hs & Ha & _).
    rewrite minimax_eq, Hterm, Hs. simpl.
    destruct (make_move_action b a Hwf Ha) as (b2 & Hres & ->). simpl.
    apply IH; [by eapply result_wf|].
    apply result_fewer_actions in Hres. lia.
Qed.

Lemma play_loop_out (n : nat) :
  ∀ b input out1 out2,
    final_board (play_loop set_iter split_words int_of_string n b input out1)
    = final_board (play_loop set_iter split_words int_of_string n b input out2).
Proof.
  induction n as [|n IH]; intros b input out1 out2; [done|].
  rewrite !play_loop_S. destruct (terminal b); [done|]. case_bool_decide.
  - destruct input as [|line input']; [done|].
    destruct (human_turn split_words int_of_string b line) as [[b' printed]| |];
      simpl; [apply IH|done..].
  - destruct (minimax set_iter b) as [[a|]| |]; simpl; [|apply IH|done..].
    destruct (make_move b a.1 a.2) as [[ok b']| |]; simpl; [apply IH|done..].
Qed.

Lemma play_game_final (n : nat) (b : board) (input : list string) :
  final_board (play_game set_iter split_words int_of_string n b input)
  = final_board (play_loop set_iter split_words int_of_string n b input msg_welcome).
Proof.
  unfold play_game.
  destruct (play_loop set_iter split_words int_of_string n b input msg_welcome)
    as [[b' out]| |]; simpl; [|done..].
  by repeat case_bool_decide.
Qed.

End ConsoleFacts.

(** X14: the computer never loses.  Whatever lines the human enters, with
    more fuel than input lines and cells, [main] either runs out of input
    ([EOFError]) or ends on a terminal board that X has not won, on which
    the players have moved in turn, and the last text written is the
    message that the computer wins or that it is a tie, according to
    [winner]. *)
Theorem computer_never_loses (set_iter : list action → list action)
    (split_words : string → list string) (int_of_string : string → option Z)
    (n : nat) (input : list string) :
  (∀ l, NoDup l → set_iter l ≡ₚ l) →
  (length input + 9 < n)%nat →
  (∃ b out,
     main set_iter split_words int_of_string n input = Ret (b, out) ∧
     terminal b = true ∧ winner b ≠ Some X ∧
     (count_symbol X b = count_symbol O b ∨
      count_symbol X b = S (count_symbol O b)) ∧
     (winner b = Some O ∧ last out = Some msg_lost ∨
      winner b = None ∧ last out = Some msg_tie))
  ∨ main set_iter split_words int_of_string n input = Raise eof_error.
Proof.
  intros Hperm Hn. unfold main, play_game.
  destruct (play_loop_ends set_iter split_words int_of_string Hperm n
              empty_board input msg_welcome wf_empty_board)
    as [(b & out & Hrun & Hterm)|Hraise].
  { pose proof (actions_le_9 empty_board). lia. }
  - left. rewrite Hrun. simpl.
    assert (Hstart : value_at_most 0 set_iter empty_board).
    { split; [apply wf_empty_board|]. exists Max, 0.
      split_and!; [reflexivity|by apply empty_board_value|done]. }
    destruct (play_loop_value set_iter split_words int_of_string Hperm 0 n
                _ _ _ _ _ Hstart Hrun) as [Hsafe _].
    pose proof (value_at_most_final set_iter Hperm 0 b Hsafe Hterm) as Hu.
    assert (Hturn : count_symbol X b = count_symbol O b ∨
                    count_symbol X b = S (count_symbol O b)).
    { destruct Hsafe as (_ & d & _ & Hd & _). destruct d; [by left|by right]. }
    unfold utility in Hu.
    destruct (winner b) as [[]|] eqn:Hw; simpl in Hu; [lia| |]; simpl.
    + eexists b, _. split; [done|]. rewrite Hw. split_and!; [done|done|done|].
      left. split; [done|]. by rewrite last_snoc.
    + eexists b, _. split; [done|]. rewrite Hw. split_and!; [done|done|done|].
      right. split; [done|]. by rewrite last_snoc.
  - right. by rewrite Hraise.
Qed.

Lemma computer_never_loses_witness :
  (∀ l : list action, NoDup l → id l ≡ₚ l) ∧
  (length ["1 1"; "0 0"] + 9 < 12)%nat ∧
  ((∃ b out,
      main id (split_space "") digit_of_string 12 ["1 1"; "0 0"] = Ret (b, out) ∧
      terminal b = true ∧ winner b ≠ Some X ∧
      (count_symbol X b = count_symbol O b ∨
       count_symbol X b = S (count_symbol O b)) ∧
      (winner b = Some O ∧ last out = Some msg_lost ∨
       winner b = None ∧ last out = Some msg_tie))
   ∨ main id (split_space "") digit_of_string 12 ["1 1"; "0 0"] = Raise eof_error).
Proof.
  assert (Hperm : ∀ l : list action, NoDup l → id l ≡ₚ l) by (intros l _; reflexivity).
  assert (Hn : (length ["1 1"; "0 0"] + 9 < 12)%nat) by (simpl; lia).
  split; [exact Hperm|]. split; [exact Hn|].
  exact (computer_never_loses id (split_space "") digit_of_string 12
           ["1 1"; "0 0"] Hperm Hn).
Defined.

(** X15: a position won for O is converted.  If [play_game] is started on a
    board whose value is -1 and it returns, whatever the human entered, the
    final board has three O in a line and the last text written is the
    message that the computer wins. *)
Theorem computer_converts_win (set_iter : list action → list action)
    (split_words : string → list string) (int_of_string : string → option Z)
    (n : nat) (b b' : board) (input out : list string) :
  (∀ l, NoDup l → set_iter l ≡ₚ l) →
  value_at_most (-1) set_iter b →
  play_game set_iter split_words int_of_string n b input = Ret (b', out) →
  winner b' = Some O ∧ last out = Some msg_lost.
Proof.
  intros Hperm Hstart. unfold play_game.
  destruct (play_loop set_iter split_words int_of_string n b input msg_welcome)
    as [[b1 out1]| |] eqn:Hrun; simpl; [|done..].
  destruct (play_loop_value set_iter split_words int_of_string Hperm (-1) n
              _ _ _ _ _ Hstart Hrun) as [Hsafe Hterm].
  pose proof (value_at_most_final set_iter Hperm (-1) b1 Hsafe Hterm) as Hu.
  unfold utility in Hu.
  destruct (winner b1) as [[]|] eqn:Hw; simpl in Hu; [lia| |lia]; simpl.
  intros [= <- <-]. split; [done|]. by rewrite last_snoc.
Qed.

Lemma computer_converts_win_witness :
  (∀ l : list action, NoDup l → id l ≡ₚ l) ∧
  value_at_most (-1) id won_board ∧
  ∃ b' out,
    play_game id (split_space "") digit_of_string 10 won_board ["0 1"]
    = Ret (b', out) ∧
    winner b' = Some O ∧ last out = Some msg_lost.
Proof.
  assert (Hperm : ∀ l : list action, NoDup l → id l ≡ₚ l) by (intros l _; reflexivity).
  assert (Hstart : value_at_most (-1) id won_board).
  { split; [split; [reflexivity|by repeat constructor]|].
    exists Max, (-1). split; [reflexivity|]. split; [by vm_compute|lia]. }
  split; [exact Hperm|]. split; [exact Hstart|].
  destruct (play_game id (split_space "") digit_of_string 10 won_board ["0 1"])
    as [[b' out]| |] eqn:Hrun; [|by vm_compute in Hrun..].
  exists b', out. split; [reflexivity|].
  exact (computer_converts_win id (split_space "") digit_of_string 10
           won_board b' ["0 1"] out Hperm Hstart Hrun).
Defined.

(** X16: a rejected line costs only a prompt.  When [human_turn] leaves the
    board as it was (wrong number of words, no integers, out of range, or
    an occupied cell), the game continues as if the line had not been
    entered: the final board, or the exception, is that of [play_game] on
    the remaining input. *)
Theorem rejected_line_ignored (set_iter : list action → list action)
    (split_words : string → list string) (int_of_string : string → option Z)
    (n : nat) (b : board) (line : string) (printed input : list string) :
  terminal b = false → player b = X →
  human_turn split_words int_of_string b line = Ret (b, printed) →
  final_board (play_game set_iter split_words int_of_string (S n) b (line :: input))
  = final_board (play_game set_iter split_words int_of_string n b input).
Proof.
  intros Hterm Hp Hturn. rewrite !play_game_final, play_loop_S, Hterm.
  rewrite bool_decide_eq_true_2 by done. rewrite Hturn. simpl.
  apply play_loop_out.
Qed.

Lemma rejected_line_ignored_witness :
  terminal empty_board = false ∧ player empty_board = X ∧
  human_turn (split_space "") digit_of_string empty_board "9 9"
  = Ret (empty_board, [msg_range]) ∧
  final_board (play_game id (split_space "") digit_of_string 2 empty_board ["9 9"])
  = final_board (play_game id (split_space "") digit_of_string 1 empty_board []).
Proof.
  assert (Hterm : terminal empty_board = false) by reflexivity.
  assert (Hp : player empty_board = X) by reflexivity.
  assert (Hturn : human_turn (split_space "") digit_of_string empty_board "9 9"
                  = Ret (empty_board, [msg_range])) by reflexivity.
  split; [exact Hterm|]. split; [exact Hp|]. split; [exact Hturn|].
  exact (rejected_line_ignored id (split_space "") digit_of_string 1
           empty_board "9 9" [msg_range] [] Hterm Hp Hturn).
Defined.

(** X17: a line of input changes the board exactly when it is two words
    that [int] accepts and that name an action of [actions(board)]: then X
    is placed as [result] would place it and nothing is printed; any other
    line leaves the board as it was and prints one message.  No exception
    escapes the [try]. *)
Theorem human_turn_accepts (split_words : string → list string)
    (int_of_string : string → option Z) (b : board) (line : string) :
  wf_board b →
  ∃ b' printed,
    human_turn split_words int_of_string b line = Ret (b', printed) ∧
    ((∃ t0 t1 row col,
        split_words line = [t0; t1] ∧
        int_of_string t0 = Some row ∧ int_of_string t1 = Some col ∧
        (row, col) ∈ actions b ∧ result b (row, col) = Ret b' ∧ printed = [])
     ∨
     (b' = b ∧ (∃ msg, printed = [msg]) ∧
      ¬ ∃ t0 t1 row col,
          split_words line = [t0; t1] ∧
          int_of_string t0 = Some row ∧ int_of_string t1 = Some col ∧
          (row, col) ∈ actions b)).
Proof.
  intros Hwf. unfold human_turn.
  case_bool_decide as Hlen.
  { eexists _, _. split; [done|]. right. split_and!; [done|by eexists|].
    intros (t0 & t1 & row & col & Heq & _). by rewrite Heq in Hlen. }
  destruct (split_words line) as [|t0 [|t1 [|]]] eqn:Hsplit; try done. simpl.
  destruct (int_of_string t0) as [row|] eqn:H0; simpl.
  2:{ eexists _, _. split; [done|]. right. split_and!; [done|by eexists|].
      intros (? & ? & ? & ? & [= <- <-] & ? & _). congruence. }
  destruct (int_of_string t1) as [col|] eqn:H1; simpl.
  2:{ eexists _, _. split; [done|]. right. split_and!; [done|by eexists|].
      intros (? & ? & ? & ? & [= <- <-] & _ & ? & _). congruence. }
  case_bool_decide as Hrange.
  { eexists _, _. split; [done|]. right. split_and!; [done|by eexists|].
    intros (? & ? & r & c & [= <- <-] & Hr & Hc & Ha).
    rewrite H0 in Hr. rewrite H1 in Hc. simplify_eq.
    apply elem_of_actions in Ha as (i & j & Hi & Hj & [= -> ->] & _). lia. }
  assert (Hr : 0 ≤ row ≤ 2 ∧ 0 ≤ col ≤ 2) by lia. destruct Hr as [Hr Hc].
  rewrite <- (Z2Nat.id row), <- (Z2Nat.id col) by lia.
  rewrite make_move_cell by (done || lia).
  assert (Hact : (Z.of_nat (Z.to_nat row), Z.of_nat (Z.to_nat col)) ∈ actions b ↔
                 cell_at b (Z.to_nat row) (Z.to_nat col) = Some None).
  { rewrite elem_of_actions. split.
    - intros (i & j & _ & _ & [= Hi Hj] & Hcell).
      apply Nat2Z.inj in Hi, Hj. by subst.
    - intros Hcell. exists (Z.to_nat row), (Z.to_nat col).
      split_and!; [lia|lia|done|done]. }
  rewrite !Z2Nat.id in Hact by lia.
  destruct (cell_at b (Z.to_nat row) (Z.to_nat col)) as [[s|]|] eqn:Hcell.
  - eexists _, _. split; [done|]. right. split_and!; [done|by eexists|].
    intros (? & ? & r & c & [= <- <-] & Hr' & Hc' & Ha).
    rewrite H0 in Hr'. rewrite H1 in Hc'. simplify_eq.
    apply Hact in Ha. congruence.
  - eexists _, _. split; [done|]. left. exists t0, t1, row, col.
    assert (Ha : (row, col) ∈ actions b) by (by apply Hact).
    split_and!; [done..| |done]. by rewrite (result_legal b _ Ha).
  - eexists _, _. split; [done|]. right. split_and!; [done|by eexists|].
    intros (? & ? & r & c & [= <- <-] & Hr' & Hc' & Ha).
    rewrite H0 in Hr'. rewrite H1 in Hc'. simplify_eq.
    apply Hact in Ha. congruence.
Qed.

Lemma human_turn_accepts_witness :
  wf_board empty_board ∧
  human_turn (split_space "") digit_of_string empty_board "1 1"
  = Ret ([[None; None; None]; [None; Some X; None]; [None; None; None]], []) ∧
  ∃ b' printed,
    human_turn (split_space "") digit_of_string empty_board "1 x"
    = Ret (b', printed) ∧ b' = empty_board ∧ printed = [msg_numbers].
Proof.
  assert (Hwf : wf_board empty_board) by (split; [reflexivity|by repeat constructor]).
  split; [exact Hwf|]. split; [reflexivity|].
  destruct (human_turn_accepts (split_space "") digit_of_string empty_board "1 x" Hwf)
    as (b' & printed & Hturn & _).
  exists b', printed. split; [exact Hturn|].
  assert (Hrun : human_turn (split_space "") digit_of_string empty_board "1 x"
                 = Ret (empty_board, [msg_numbers])) by reflexivity.
  rewrite Hrun in Hturn. injection Hturn as <- <-. split; reflexivity.
Defined.
